(** * Event completion tracking in the OpenCL C wrapper

    A shallow embedding of [src/c_wrapper/event.cpp]: the one-shot finalize
    guard [event_private], the event handle [event] with its release-time
    dispatch, the [nanny_event] that keeps a ward alive, and the C entry
    points.  The program state is threaded explicitly through a small
    state-and-exception monad; the OpenCL driver is a parameter. *)

From Stdlib Require Import ZArith List String Lia Bool.
From stdpp Require Import base option gmap list strings.
Local Open Scope Z_scope.

(** ** Scalar types and the constants of the OpenCL headers *)

Abbreviation cl_int := Z (only parsing).
Abbreviation cl_uint := Z (only parsing).
Abbreviation cl_event := Z (only parsing).
Abbreviation voidp := Z (only parsing).

Definition nullptr : Z := 0.

Definition CL_SUCCESS : cl_int := 0.
Definition CL_INVALID_VALUE : cl_int := -30.
Definition CL_COMPLETE : cl_int := 0.

Definition CL_EVENT_COMMAND_QUEUE : cl_uint := 0x11D0.
Definition CL_EVENT_COMMAND_TYPE : cl_uint := 0x11D1.
Definition CL_EVENT_REFERENCE_COUNT : cl_uint := 0x11D2.
Definition CL_EVENT_COMMAND_EXECUTION_STATUS : cl_uint := 0x11D3.
Definition CL_EVENT_CONTEXT : cl_uint := 0x11D4.

Definition CL_PROFILING_COMMAND_QUEUED : cl_uint := 0x1280.
Definition CL_PROFILING_COMMAND_SUBMIT : cl_uint := 0x1281.
Definition CL_PROFILING_COMMAND_START : cl_uint := 0x1282.
Definition CL_PROFILING_COMMAND_END : cl_uint := 0x1283.

(** ** Errors, payload objects, closures *)

(** [clerror(routine, code)]: the exception every guarded driver call and
    the two info switches throw.  [what] is the message of the underlying
    [std::runtime_error]. *)
Record clerror := Clerror {
  routine : string;
  code : cl_int;
  what : string
}.

#[global] Instance clerror_eq_dec : EqDecision clerror.
Proof. solve_decision. Defined.

(** Modelled from the spec: the two-argument constructor
    [clerror(routine, code)] (error.h is not part of the sources) builds an
    error that carries the failing operation's name and the status code; the
    message is left empty. *)
Definition clerror2 (rout : string) (c : cl_int) : clerror :=
  Clerror rout c "".

(** The finalize payloads.  [event_private] holds the atomic completion flag;
    [nanny_event_private] adds the ward pointer. *)
Inductive payload :=
| event_private (m_finished : bool)
| nanny_event_private (m_finished : bool) (m_ward : voidp).

Definition m_finished (o : payload) : bool :=
  match o with
  | event_private f => f
  | nanny_event_private f _ => f
  end.

Definition set_finished (b : bool) (o : payload) : payload :=
  match o with
  | event_private _ => event_private b
  | nanny_event_private _ wd => nanny_event_private b wd
  end.

(** The two lambdas the file hands to [set_callback], and the function the
    detached monitor thread runs. *)
Inductive closure :=
| release_cb (p : Z)
| python_cb (pyobj : voidp).

Inductive thread_fn :=
| monitor (evt : cl_event) (p : Z).

(** The value an info query hands back: a wrapped handle of another object
    class, or an integer of a given OpenCL type. *)
Inductive clobj_class := class_command_queue | class_context.
Inductive int_type := type_cl_command_type | type_cl_int | type_cl_uint | type_cl_ulong.
Inductive generic_info :=
| opaque_info (c : clobj_class) (handle : Z)
| int_info (t : int_type) (value : Z).

(** What is written to [std::cerr], one item per [<<]. *)
Inductive out_item :=
| OStr (s : string)
| OInt (z : cl_int)
| OEndl.

(** Observable actions: driver calls, calls into the foreign runtime, heap
    operations, and a marker for each entry into the virtual [finish()]. *)
Inductive action :=
| ClRetainEvent (h : cl_event)
| ClReleaseEvent (h : cl_event)
| ClWaitForEvents (hs : list cl_event)
| ClEnqueueWaitForEvents (queue : Z) (hs : list cl_event)
| ClSetEventCallback (h : cl_event) (type : cl_int)
| ClGetEventInfo (h : cl_event) (param : cl_uint)
| ClGetEventProfilingInfo (h : cl_event) (param : cl_uint)
| PyRef (obj : voidp)
| PyDeref (obj : voidp)
| PyCall (obj : voidp) (status : cl_int)
| New (p : Z)
| Delete (p : Z)
| Finish (p : Z)
| Spawn (evt : cl_event) (p : Z).

#[global] Instance action_eq_dec : EqDecision action.
Proof. solve_decision. Defined.

(** Number of times action [a] occurs in a trace. *)
Definition occ (a : action) (tr : list action) : nat :=
  length (filter (eq a) tr).

(** ** The program state *)

Record world := World {
  heap : gmap Z payload;
  pyrefs : gmap Z Z;
  callbacks : list (cl_event * cl_int * closure);
  threads : list thread_fn;
  cerr : list out_item;
  outs : gmap Z generic_info;
  trace : list action
}.

Definition with_heap (f : gmap Z payload → gmap Z payload)
    (w : world) : world :=
  World (f (heap w)) (pyrefs w) (callbacks w) (threads w) (cerr w) (outs w) (trace w).
Definition with_pyrefs (f : gmap Z Z → gmap Z Z)
    (w : world) : world :=
  World (heap w) (f (pyrefs w)) (callbacks w) (threads w) (cerr w) (outs w) (trace w).
Definition with_callbacks (f : list (cl_event * cl_int * closure) → list (cl_event * cl_int * closure))
    (w : world) : world :=
  World (heap w) (pyrefs w) (f (callbacks w)) (threads w) (cerr w) (outs w) (trace w).
Definition with_threads (f : list thread_fn → list thread_fn)
    (w : world) : world :=
  World (heap w) (pyrefs w) (callbacks w) (f (threads w)) (cerr w) (outs w) (trace w).
Definition with_cerr (f : list out_item → list out_item)
    (w : world) : world :=
  World (heap w) (pyrefs w) (callbacks w) (threads w) (f (cerr w)) (outs w) (trace w).
Definition with_outs (f : gmap Z generic_info → gmap Z generic_info)
    (w : world) : world :=
  World (heap w) (pyrefs w) (callbacks w) (threads w) (cerr w) (f (outs w)) (trace w).
Definition with_trace (f : list action → list action)
    (w : world) : world :=
  World (heap w) (pyrefs w) (callbacks w) (threads w) (cerr w) (outs w) (f (trace w)).

Definition empty_world : world := World ∅ ∅ [] [] [] ∅ [].

(** The external reference count of a foreign object (0 when untracked). *)
Definition refcount (obj : voidp) (w : world) : Z :=
  default 0 (pyrefs w !! obj).

Definition finish_runs (p : Z) (w : world) : nat := occ (Finish p) (trace w).
Definition deletions (p : Z) (w : world) : nat := occ (Delete p) (trace w).

(** ** The computation monad

    A computation either returns, throws a [clerror], or is undefined (it
    used a payload pointer that is null or already deleted). *)

Inductive outcome (A : Type) :=
| Returns (a : A) (w : world)
| Throws (e : clerror) (w : world)
| Undefined.
Arguments Returns {A} a w.
Arguments Throws {A} e w.
Arguments Undefined {A}.

Definition M (A : Type) : Type := world → outcome A.

#[global] Instance M_ret : MRet M := λ A a w, Returns a w.
#[global] Instance M_bind : MBind M := λ A B f m w,
  match m w with
  | Returns a w' => f a w'
  | Throws e w' => Throws e w'
  | Undefined => Undefined
  end.

Definition throw {A} (e : clerror) : M A := λ w, Throws e w.
Definition undefined {A} : M A := λ _, Undefined.

(** [try { body } catch (...) { handler }] *)
Definition try_catch {A} (body : M A) (handler : clerror → M A) : M A := λ w,
  match body w with
  | Throws e w' => handler e w'
  | r => r
  end.

Definition modify (f : world → world) : M unit := λ w, Returns tt (f w).
Definition log (a : action) : M unit := modify (with_trace (λ tr, tr ++ [a])).
Definition print (items : list out_item) : M unit :=
  modify (with_cerr (λ o, o ++ items)).
Definition get_trace : M (list action) := λ w, Returns (trace w) w.

(** Access to a payload object through a pointer. *)
Definition load (p : Z) : M payload := λ w,
  match heap w !! p with
  | Some o => Returns o w
  | None => Undefined
  end.
Definition store (p : Z) (o : payload) : M unit :=
  modify (with_heap (insert p o)).

(** [new T(...)]: the allocator hands out an address that is neither null
    nor in use. *)
Definition new (o : payload) : M Z := λ w,
  let p := fresh ({[nullptr]} ∪ dom (heap w)) in
  Returns p (with_heap (insert p o) (with_trace (λ tr, tr ++ [New p]) w)).

(** [delete p]: nothing for a null pointer; otherwise the (empty) destructors
    run and the storage is returned. *)
Definition delete_ (p : Z) : M unit :=
  if decide (p = nullptr) then mret tt
  else (_ ← load p; log (Delete p);; modify (with_heap (delete p))).

(** ** The OpenCL driver

    Each entry point answers with a status code; its answer may depend on
    everything that has happened so far. *)
Record driver := Driver {
  clRetainEvent : list action → cl_event → cl_int;
  clReleaseEvent : list action → cl_event → cl_int;
  clWaitForEvents : list action → list cl_event → cl_int;
  clEnqueueWaitForEvents : list action → Z → list cl_event → cl_int;
  clSetEventCallback : list action → cl_event → cl_int → cl_int;
  clGetEventInfo : list action → cl_event → cl_uint → cl_int * Z;
  clGetEventProfilingInfo : list action → cl_event → cl_uint → cl_int * Z
}.

(** One driver call: record it and obtain the driver's answer. *)
Definition native {A} (a : action) (answer : list action → A) : M A :=
  tr ← get_trace; log a;; mret (answer tr).

(** Modelled from the spec: the macro [pyopencl_call_guarded] (error.h is not
    part of the sources) performs the driver call and fails with a
    [clerror] carrying the operation's name and the status code when the
    status is not success. *)
Definition pyopencl_call_guarded (name : string) (a : action)
    (answer : list action → cl_int) : M unit :=
  st ← native a answer;
  if st =? CL_SUCCESS then mret tt else throw (clerror2 name st).

(** Modelled from the spec: the macro [pyopencl_call_guarded_cleanup]
    (error.h is not part of the sources) performs the driver call; a failure
    is swallowed (best-effort cleanup) and never propagates. *)
Definition pyopencl_call_guarded_cleanup (name : string) (a : action)
    (answer : list action → cl_int) : M unit :=
  _ ← native a answer; mret tt.

(** Modelled from the spec: [c_handle_error] (error.h is not part of the
    sources) runs the body of a C entry point and turns a thrown error into
    the returned error object; no error is the null result. *)
Definition c_handle_error (body : M unit) : M (option clerror) := λ w,
  match body w with
  | Returns _ w' => Returns None w'
  | Throws e w' => Returns (Some e) w'
  | Undefined => Undefined
  end.

(** Modelled from the spec: [py::ref], [py::deref] and [py::call]
    (pyhelper.h is not part of the sources) increment and decrement the
    external reference count of an opaque foreign object, and call it. *)
Definition py_ref (obj : voidp) : M voidp :=
  log (PyRef obj);;
  modify (λ w, with_pyrefs (insert obj (refcount obj w + 1)) w);;
  mret obj.
Definition py_deref (obj : voidp) : M unit :=
  log (PyDeref obj);;
  modify (λ w, with_pyrefs (insert obj (refcount obj w - 1)) w).
Definition py_call (obj : voidp) (status : cl_int) : M unit :=
  log (PyCall obj status).

(** ** [class event_private] *)

(** The virtual [finish()].  [event_private::finish] has an empty body, and
    [nanny_event_private] declares no member of that name, so both classes
    dispatch to the empty body. *)
Definition finish (p : Z) : M unit :=
  o ← load p;
  log (Finish p);;
  match o with
  | event_private _ => mret tt
  | nanny_event_private _ _ => mret tt
  end.

(** [m_finished.exchange(b)], one atomic step. *)
Definition exchange (p : Z) (b : bool) : M bool :=
  o ← load p;
  store p (set_finished b o);;
  mret (m_finished o).

Definition call_finish (p : Z) : M unit :=
  old ← exchange p true;
  if old : bool then mret tt else finish p.

Definition is_finished (p : Z) : M bool :=
  o ← load p; mret (m_finished o).

(** ** [class event] and [class nanny_event] *)

Record event := Build_event {
  data : cl_event;
  m_p : Z
}.

Definition warning_header : string :=
  "PyOpenCL WARNING: a clean-up operation failed (dead context maybe?)".

Section Program.

(** The driver, the OpenCL version the wrapper is compiled for, the
    [support_cb] switch (declared outside this file), and the value that
    default-initialisation leaves in [m_finished]: [event_private] declares
    no constructor, so the file itself never sets the flag of a new
    payload. *)
Variable d : driver.
Variable PYOPENCL_CL_VERSION : Z.
Variable support_cb : bool.
Variable m_finished_init : bool.

(** [event::event(cl_event event, bool retain, event_private *p)] *)
Definition event_ctor (evt : cl_event) (retain : bool) (p : Z) : M event :=
  let this := Build_event evt p in
  (if retain then
     try_catch
       (pyopencl_call_guarded "clRetainEvent" (ClRetainEvent (data this))
          (λ tr, clRetainEvent d tr (data this)))
       (λ e, delete_ (m_p this);; throw e)
   else mret tt);;
  mret this.

(** Modelled from the spec: [event::set_callback] (event.h is not part of
    the sources) registers a callback with the driver for a trigger status;
    when the driver refuses, it fails with the [clerror] of the driver call
    and nothing is registered. *)
Definition set_callback (this : event) (type : cl_int) (f : closure) : M unit :=
  pyopencl_call_guarded "clSetEventCallback"
    (ClSetEventCallback (data this) type)
    (λ tr, clSetEventCallback d tr (data this) type);;
  modify (with_callbacks (λ cbs, cbs ++ [(data this, type, f)])).

(** Whether [release_private] is compiled with, and takes, the callback
    branch. *)
Definition use_callback : bool :=
  (0x1010 <=? PYOPENCL_CL_VERSION) && support_cb.

(** [event::release_private()].  The callback branch exists only when the
    wrapper is compiled for OpenCL 1.1 or later; without it the thread
    branch is unconditional. *)
Definition release_private (this : event) : M unit :=
  if decide (m_p this = nullptr) then mret tt
  else
    fin ← is_finished (m_p this);
    if fin : bool then delete_ (m_p this)
    else if use_callback then
      try_catch
        (let p := m_p this in
         set_callback this CL_COMPLETE (release_cb p))
        (λ e, print [OStr warning_header; OEndl;
                     OStr (what e); OStr " failed with code "; OInt (code e);
                     OEndl])
    else
      log (Spawn (data this) (m_p this));;
      modify (with_threads (λ ts, ts ++ [monitor (data this) (m_p this)])).

(** [event::~event()] *)
Definition event_dtor (this : event) : M unit :=
  release_private this;;
  pyopencl_call_guarded_cleanup "clReleaseEvent" (ClReleaseEvent (data this))
    (λ tr, clReleaseEvent d tr (data this)).

(** Modelled from the spec: the macros [pyopencl_get_opaque_info] and
    [pyopencl_get_int_info] (clhelper.h is not part of the sources) query one
    field from the driver, guarded, and wrap the answer. *)
Definition pyopencl_get_opaque_info (c : clobj_class) (this : event)
    (param : cl_uint) : M generic_info :=
  r ← native (ClGetEventInfo (data this) param)
        (λ tr, clGetEventInfo d tr (data this) param);
  if r.1 =? CL_SUCCESS then mret (opaque_info c r.2)
  else throw (clerror2 "clGetEventInfo" r.1).

Definition pyopencl_get_int_info (t : int_type) (profiling : bool)
    (this : event) (param : cl_uint) : M generic_info :=
  r ← (if profiling
       then native (ClGetEventProfilingInfo (data this) param)
              (λ tr, clGetEventProfilingInfo d tr (data this) param)
       else native (ClGetEventInfo (data this) param)
              (λ tr, clGetEventInfo d tr (data this) param));
  if r.1 =? CL_SUCCESS then mret (int_info t r.2)
  else throw (clerror2 (if profiling then "clGetEventProfilingInfo"
                        else "clGetEventInfo") r.1).

Definition get_info (this : event) (param_name : cl_uint) : M generic_info :=
  if param_name =? CL_EVENT_COMMAND_QUEUE then
    pyopencl_get_opaque_info class_command_queue this param_name
  else if param_name =? CL_EVENT_COMMAND_TYPE then
    pyopencl_get_int_info type_cl_command_type false this param_name
  else if param_name =? CL_EVENT_COMMAND_EXECUTION_STATUS then
    pyopencl_get_int_info type_cl_int false this param_name
  else if param_name =? CL_EVENT_REFERENCE_COUNT then
    pyopencl_get_int_info type_cl_uint false this param_name
  else if (0x1010 <=? PYOPENCL_CL_VERSION) && (param_name =? CL_EVENT_CONTEXT) then
    pyopencl_get_opaque_info class_context this param_name
  else throw (clerror2 "Event.get_info" CL_INVALID_VALUE).

Definition get_profiling_info (this : event) (param : cl_uint) : M generic_info :=
  if (param =? CL_PROFILING_COMMAND_QUEUED)
     || (param =? CL_PROFILING_COMMAND_SUBMIT)
     || (param =? CL_PROFILING_COMMAND_START)
     || (param =? CL_PROFILING_COMMAND_END) then
    pyopencl_get_int_info type_cl_ulong true this param
  else throw (clerror2 "Event.get_profiling_info" CL_INVALID_VALUE).

Definition wait (this : event) : M unit :=
  pyopencl_call_guarded "clWaitForEvents" (ClWaitForEvents [data this])
    (λ tr, clWaitForEvents d tr [data this]);;
  if decide (m_p this = nullptr) then mret tt
  else call_finish (m_p this).

(** [nanny_event_private::finished()]: a private member that no code in the
    file calls. *)
Definition finished (p : Z) : M unit :=
  o ← load p;
  match o with
  | nanny_event_private f ward =>
      store p (nanny_event_private f nullptr);;
      py_deref ward
  | event_private _ => undefined
  end.

(** [new nanny_event_private(ward)] *)
Definition nanny_event_private_ctor (ward : voidp) : M Z :=
  p ← new (nanny_event_private m_finished_init nullptr);
  r ← py_ref ward;
  o ← load p;
  store p (nanny_event_private (m_finished o) r);;
  mret p.

(** [nanny_event_private::get_ward()] through a payload pointer. *)
Definition payload_get_ward (p : Z) : M voidp :=
  o ← load p;
  match o with
  | nanny_event_private _ ward => mret ward
  | event_private _ => undefined
  end.

(** [nanny_event::nanny_event(cl_event evt, bool retain, void *ward)] *)
Definition nanny_event_ctor (evt : cl_event) (retain : bool) (ward : voidp)
    : M event :=
  p ← (if decide (ward = nullptr) then mret nullptr
       else nanny_event_private_ctor ward);
  event_ctor evt retain p.

(** [nanny_event::get_ward()] *)
Definition get_ward (this : event) : M voidp :=
  if decide (m_p this = nullptr) then mret nullptr
  else payload_get_ward (m_p this).

(** ** Deferred work: what the registered lambdas and the monitor thread do *)

Definition run_closure (c : closure) (status : cl_int) : M unit :=
  match c with
  | release_cb p => call_finish p;; delete_ p
  | python_cb pyobj => py_call pyobj status;; py_deref pyobj
  end.

Definition run_thread (t : thread_fn) : M unit :=
  match t with
  | monitor evt p =>
      pyopencl_call_guarded_cleanup "clWaitForEvents" (ClWaitForEvents [evt])
        (λ tr, clWaitForEvents d tr [evt]);;
      call_finish p;;
      delete_ p
  end.

(** ** The C entry points *)

Definition event__get_profiling_info (evt : event) (param : cl_uint)
    (out : Z) : M (option clerror) :=
  c_handle_error
    (v ← get_profiling_info evt param;
     modify (with_outs (insert out v))).


(** Compiled only for OpenCL 1.1 and later. *)
Definition event__set_callback (evt : event) (type : cl_int) (pyobj : voidp)
    : M (option clerror) :=
  c_handle_error
    (pyobj ← py_ref pyobj;
     try_catch
       (set_callback evt type (python_cb pyobj))
       (λ _, py_deref pyobj)).

Definition nanny_event__get_ward (evt : event) : M voidp :=
  get_ward evt.

(** [wait_for] holds the [num_wait_for] handles of the argument array. *)
Definition wait_for_events (wait_for : list event) : M (option clerror) :=
  let wait_for := data <$> wait_for in
  c_handle_error
    (pyopencl_call_guarded "clWaitForEvents" (ClWaitForEvents wait_for)
       (λ tr, clWaitForEvents d tr wait_for)).

Definition enqueue_wait_for_events (queue : Z) (wait_for : list event)
    : M (option clerror) :=
  let wait_for := data <$> wait_for in
  c_handle_error
    (pyopencl_call_guarded "clEnqueueWaitForEvents"
       (ClEnqueueWaitForEvents queue wait_for)
       (λ tr, clEnqueueWaitForEvents d tr queue wait_for)).

End Program.

(** ** Completion of deferred work

    The driver invokes every registered callback once with the trigger
    status it was registered for, and every detached thread runs to its
    end. *)

Fixpoint run_all {A} (f : A → M unit) (l : list A) : M unit :=
  match l with
  | [] => mret tt
  | x :: l => f x;; run_all f l
  end.

Definition fire_callbacks : M unit := λ w,
  run_all (λ cb : cl_event * cl_int * closure, run_closure cb.2 cb.1.2)
    (callbacks w) (with_callbacks (λ _, []) w).

Definition join_threads (d : driver) : M unit := λ w,
  run_all (run_thread d) (threads w) (with_threads (λ _, []) w).

Definition drain (d : driver) : M unit :=
  fire_callbacks;; join_threads d.

(** How many of the three release paths hold payload [p]: the callbacks and
    the monitor threads that captured it. *)
Definition captures (p : Z) (c : closure) : bool :=
  match c with
  | release_cb q => bool_decide (q = p)
  | python_cb _ => false
  end.

Definition monitors (p : Z) (t : thread_fn) : bool :=
  match t with monitor _ q => bool_decide (q = p) end.

Definition pending_owners (p : Z) (w : world) : nat :=
  length (filter (λ cb : cl_event * cl_int * closure, captures p cb.2 = true)
            (callbacks w))
  + length (filter (λ t, monitors p t = true) (threads w)).

(** ** Threads racing through [event::wait]

    [wait] consists of three steps that other threads can interleave with:
    the blocking driver call, the atomic exchange inside [call_finish], and
    the call of the virtual [finish].  A thread is at one of these program
    points, or it has left [wait]. *)
Inductive pc :=
| at_wait
| at_exchange
| at_finish
| returned
| thrown (e : clerror).

#[global] Instance pc_eq_dec : EqDecision pc.
Proof. solve_decision. Defined.

Definition thread_step (d : driver) (this : event) (c : pc) : M pc :=
  match c with
  | at_wait =>
      try_catch
        (pyopencl_call_guarded "clWaitForEvents" (ClWaitForEvents [data this])
           (λ tr, clWaitForEvents d tr [data this]);;
         mret (if decide (m_p this = nullptr) then returned else at_exchange))
        (λ e, mret (thrown e))
  | at_exchange =>
      old ← exchange (m_p this) true;
      mret (if old : bool then returned else at_finish)
  | at_finish => finish (m_p this);; mret returned
  | returned => mret returned
  | thrown e => mret (thrown e)
  end.

(** A configuration is the program point of every thread and the shared
    state; a schedule names the thread that moves next. *)
Definition config : Type := list pc * world.

Definition sched_step (d : driver) (this : event) (i : nat) (cfg : config)
    : option config :=
  match cfg.1 !! i with
  | Some c =>
      match thread_step d this c cfg.2 with
      | Returns c' w' => Some (<[i := c']> cfg.1, w')
      | _ => None
      end
  | None => None
  end.

Fixpoint run_schedule (d : driver) (this : event) (s : list nat) (cfg : config)
    : option config :=
  match s with
  | [] => Some cfg
  | i :: s =>
      match sched_step d this i cfg with
      | Some cfg' => run_schedule d this s cfg'
      | None => None
      end
  end.

(** The number of threads that won the exchange and have not yet run
    [finish]. *)
Definition inside_finish (pcs : list pc) : nat :=
  length (filter (eq at_finish) pcs).

(** ** Drivers used in the examples *)

(** A driver that accepts every call. *)
Definition ok_driver : driver :=
  Driver (λ _ _, CL_SUCCESS) (λ _ _, CL_SUCCESS) (λ _ _, CL_SUCCESS)
    (λ _ _ _, CL_SUCCESS) (λ _ _ _, CL_SUCCESS)
    (λ _ _ _, (CL_SUCCESS, 0)) (λ _ _ _, (CL_SUCCESS, 0)).

(** A driver that rejects a wait on zero events with [CL_INVALID_VALUE], as
    the OpenCL specification of [clWaitForEvents] prescribes. *)
Definition conformant_driver : driver :=
  Driver (λ _ _, CL_SUCCESS) (λ _ _, CL_SUCCESS)
    (λ _ hs, match hs with [] => CL_INVALID_VALUE | _ => CL_SUCCESS end)
    (λ _ _ _, CL_SUCCESS) (λ _ _ _, CL_SUCCESS)
    (λ _ _ _, (CL_SUCCESS, 0)) (λ _ _ _, (CL_SUCCESS, 0)).

(** A driver whose context is gone: retaining an event and registering a
    callback fail with [CL_INVALID_EVENT] (-58). *)
Definition dead_driver : driver :=
  Driver (λ _ _, -58) (λ _ _, -58) (λ _ _, CL_SUCCESS)
    (λ _ _ _, CL_SUCCESS) (λ _ _ _, -58)
    (λ _ _ _, (-58, 0)) (λ _ _ _, (-58, 0)).

(** ** Sequences of calls and sample states *)

(** [n] successive calls of [call_finish] on the same payload. *)
Fixpoint call_finish_n (n : nat) (p : Z) : M unit :=
  match n with
  | O => mret tt
  | S n => call_finish p;; call_finish_n n p
  end.

(** A state with one unfinished plain payload at address 1, and a handle for
    native event 5 that owns it. *)
Definition one_payload : world :=
  with_heap (insert 1 (event_private false)) empty_world.
Definition handle_5 : event := Build_event 5 1.

(** A state with one already finished payload at address 1. *)
Definition one_finished_payload : world :=
  with_heap (insert 1 (event_private true)) empty_world.

(** A state in which the foreign object 7 has one external reference. *)
Definition one_ward : world := with_pyrefs (insert 7 1) empty_world.

(** A nanny event for native event 5 that guards the foreign object 7 is
    created, waited on, and its ward queried before and after the wait. *)
Definition nanny_wait_scenario : M (voidp * bool * voidp) :=
  e ← nanny_event_ctor ok_driver false 5 false 7;
  before ← get_ward e;
  wait ok_driver e;;
  fin ← is_finished (m_p e);
  after ← get_ward e;
  mret (before, fin, after).

(** The same nanny event is dropped without a wait; then the event
    completes, so the driver fires the release callback. *)
Definition nanny_drop_scenario : M unit :=
  e ← nanny_event_ctor ok_driver false 5 false 7;
  event_dtor ok_driver 0x1010 true e;;
  drain ok_driver.

(** A handle for native event 5 without a payload. *)
Definition bare_handle_5 : event := Build_event 5 nullptr.

(** The fields [get_info] and [get_profiling_info] know. *)
Definition event_info_fields : list cl_uint :=
  [CL_EVENT_COMMAND_QUEUE; CL_EVENT_COMMAND_TYPE;
   CL_EVENT_COMMAND_EXECUTION_STATUS; CL_EVENT_REFERENCE_COUNT;
   CL_EVENT_CONTEXT].

Definition profiling_fields : list cl_uint :=
  [CL_PROFILING_COMMAND_QUEUED; CL_PROFILING_COMMAND_SUBMIT;
   CL_PROFILING_COMMAND_START; CL_PROFILING_COMMAND_END].

(** The kind of value each field of [get_info] yields. *)
Definition info_field_of (PYOPENCL_CL_VERSION : Z) (v : generic_info)
    : option cl_uint :=
  match v with
  | opaque_info class_command_queue _ => Some CL_EVENT_COMMAND_QUEUE
  | int_info type_cl_command_type _ => Some CL_EVENT_COMMAND_TYPE
  | int_info type_cl_int _ => Some CL_EVENT_COMMAND_EXECUTION_STATUS
  | int_info type_cl_uint _ => Some CL_EVENT_REFERENCE_COUNT
  | opaque_info class_context _ =>
      if 0x1010 <=? PYOPENCL_CL_VERSION then Some CL_EVENT_CONTEXT else None
  | int_info type_cl_ulong _ => None
  end.

(** The invariant of the guard while [n] threads race through [wait] on a
    handle with payload [p], where [finish] had run [r0] times at the start:
    the payload is live; [finish] has run at least [r0] times; the runs of
    [finish] so far plus the threads that are about to run it number [r0],
    or [r0 + 1] once the flag is set; and a thread that has returned has
    seen the flag set. *)
Definition guard_inv (p : Z) (r0 : nat) (cfg : config) : Prop :=
  ∃ o, heap cfg.2 !! p = Some o
       ∧ (r0 ≤ finish_runs p cfg.2)%nat
       ∧ (finish_runs p cfg.2 + inside_finish cfg.1
          = r0 + if m_finished o then 1 else 0)%nat
       ∧ (∀ i, cfg.1 !! i = Some returned → m_finished o = true).

(** The raw value an info query carries. *)
Definition info_value (v : generic_info) : Z :=
  match v with
  | opaque_info _ handle => handle
  | int_info _ value => value
  end.

(** How many steps a thread at a program point of [wait] has left at most;
    0 for a thread that has left [wait]. *)
Definition rank (c : pc) : nat :=
  match c with
  | at_wait => 3
  | at_exchange => 2
  | at_finish => 1
  | returned | thrown _ => 0
  end.

(** How many steps a schedule gives to thread [i]. *)
Definition steps_of (i : nat) (s : list nat) : nat :=
  length (filter (eq i) s).

(** A nanny event for ward 7 is constructed on storage in which the
    default-initialised completion flag reads true, and [call_finish] is
    then called three times on its payload. *)
Definition uninitialised_flag_scenario : M bool :=
  e ← nanny_event_ctor ok_driver true 5 false 7;
  call_finish_n 3 (m_p e);;
  is_finished (m_p e).

(** The invariant of the guard while threads race through [wait] on a
    handle whose payload [p] had its flag set at the start: the payload is
    live, the flag stays set, no thread is about to run [finish], and
    [finish] has run [r0] times, as at the start. *)
Definition set_inv (p : Z) (r0 : nat) (cfg : config) : Prop :=
  ∃ o, heap cfg.2 !! p = Some o
       ∧ m_finished o = true
       ∧ inside_finish cfg.1 = 0%nat
       ∧ finish_runs p cfg.2 = r0.

(** * Properties *)

(** ** Basic facts about the state and the monad *)

Ltac munfold :=
  unfold mbind, mret, M_bind, M_ret, throw, undefined, try_catch, modify, log,
    print, get_trace, native, load, store in *.

Lemma occ_snoc (a b : action) (tr : list action) :
  occ a (tr ++ [b]) = (occ a tr + if decide (a = b) then 1 else 0)%nat.
Proof.
  unfold occ. rewrite filter_app, length_app. f_equal.
  rewrite filter_cons, filter_nil. by case_decide.
Qed.

Lemma occ_app (a : action) (tr1 tr2 : list action) :
  occ a (tr1 ++ tr2) = (occ a tr1 + occ a tr2)%nat.
Proof. unfold occ. by rewrite filter_app, length_app. Qed.

Lemma set_finished_same (o : payload) :
  m_finished o = true → set_finished true o = o.
Proof. destruct o; simpl; intros ->; reflexivity. Qed.

Lemma m_finished_set (b : bool) (o : payload) :
  m_finished (set_finished b o) = b.
Proof. by destruct o. Qed.

Lemma with_heap_insert_id (w : world) (p : Z) (o : payload) :
  heap w !! p = Some o → with_heap (insert p o) w = w.
Proof.
  intros H. destruct w; unfold with_heap; simpl in *. f_equal.
  by apply insert_id.
Qed.

Lemma exchange_live (w : world) (p : Z) (o : payload) (b : bool) :
  heap w !! p = Some o →
  exchange p b w
  = Returns (m_finished o) (with_heap (insert p (set_finished b o)) w).
Proof. intros H. unfold exchange. munfold. by rewrite H. Qed.

Lemma is_finished_live (w : world) (p : Z) (o : payload) :
  heap w !! p = Some o → is_finished p w = Returns (m_finished o) w.
Proof. intros H. unfold is_finished. munfold. by rewrite H. Qed.

Lemma finish_live (w : world) (p : Z) (o : payload) :
  heap w !! p = Some o →
  finish p w = Returns tt (with_trace (λ tr, tr ++ [Finish p]) w).
Proof. intros H. unfold finish. munfold. rewrite H. by destruct o. Qed.

(** A call on a finished payload returns at once and changes nothing. *)
Lemma call_finish_finished (w : world) (p : Z) (o : payload) :
  heap w !! p = Some o → m_finished o = true → call_finish p w = Returns tt w.
Proof.
  intros H Hf. unfold call_finish, mbind, M_bind.
  rewrite (exchange_live _ _ _ _ H), Hf, set_finished_same by done.
  by rewrite with_heap_insert_id.
Qed.

(** A call on an unfinished payload sets the flag and enters [finish]. *)
Lemma call_finish_unfinished (w : world) (p : Z) (o : payload) :
  heap w !! p = Some o → m_finished o = false →
  call_finish p w
  = Returns tt (with_trace (λ tr, tr ++ [Finish p])
                  (with_heap (insert p (set_finished true o)) w)).
Proof.
  intros H Hf. unfold call_finish, mbind, M_bind.
  rewrite (exchange_live _ _ _ _ H), Hf.
  erewrite finish_live; [done|]. simpl. by rewrite lookup_insert_eq.
Qed.

Lemma call_finish_n_finished (n : nat) (w : world) (p : Z) (o : payload) :
  heap w !! p = Some o → m_finished o = true →
  call_finish_n n p w = Returns tt w.
Proof.
  intros H Hf. induction n as [|n IH]; [done|].
  simpl. unfold mbind, M_bind. by rewrite (call_finish_finished _ _ _ H Hf).
Qed.

Lemma bind_returns {A B} (m : M A) (f : A → M B) (w w' : world) (a : A) :
  m w = Returns a w' → (m ≫= f) w = f a w'.
Proof. intros H. unfold mbind, M_bind. by rewrite H. Qed.

(** ** The finish-once guard *)

Example call_finish_twice :
  ∃ w, call_finish_n 2 1 one_payload = Returns tt w
       ∧ trace w = [Finish 1]
       ∧ heap w !! 1 = Some (event_private true).
Proof. eexists. split; [vm_compute; reflexivity|]. by vm_compute. Qed.

Example call_finish_on_finished :
  call_finish 1 one_finished_payload = Returns tt one_finished_payload.
Proof. by apply call_finish_finished with (event_private true). Qed.

(** When the flag of the payload is clear at the start, the guard does what
    is expected of it: in any sequence of [S n] calls of [call_finish] the
    first call flips the flag and runs the body of [finish] exactly once;
    each of the [n] later calls returns at once without running [finish]
    and leaves the state as it is; no call fails; and [is_finished] is true
    after every call that has returned. *)
Theorem call_finish_once (w : world) (p : Z) (o : payload) (n : nat) :
  heap w !! p = Some o →
  m_finished o = false →
  ∃ w1,
    call_finish p w = Returns tt w1
    ∧ finish_runs p w1 = S (finish_runs p w)
    ∧ is_finished p w1 = Returns true w1
    ∧ call_finish p w1 = Returns tt w1
    ∧ (∀ k, call_finish_n k p w1 = Returns tt w1)
    ∧ call_finish_n (S n) p w = Returns tt w1.
Proof.
  intros H Hf. eexists. split; [by apply call_finish_unfinished|].
  set (w1 := with_trace _ _).
  assert (H1 : heap w1 !! p = Some (set_finished true o))
    by (subst w1; simpl; apply lookup_insert_eq).
  pose proof (m_finished_set true o) as Hset.
  repeat split.
  - unfold finish_runs. subst w1. simpl. rewrite occ_snoc.
    rewrite decide_True by done. lia.
  - by rewrite (is_finished_live _ _ _ H1), Hset.
  - by apply (call_finish_finished _ _ _ H1).
  - intros k. by apply (call_finish_n_finished _ _ _ _ H1).
  - simpl. unfold mbind, M_bind.
    rewrite (call_finish_unfinished _ _ _ H Hf). fold w1.
    by apply (call_finish_n_finished _ _ _ _ H1).
Qed.

Lemma call_finish_once_witness :
  ∃ w1,
    call_finish 1 one_payload = Returns tt w1
    ∧ finish_runs 1 w1 = S (finish_runs 1 one_payload)
    ∧ is_finished 1 w1 = Returns true w1
    ∧ call_finish 1 w1 = Returns tt w1
    ∧ (∀ k, call_finish_n k 1 w1 = Returns tt w1)
    ∧ call_finish_n (S 3) 1 one_payload = Returns tt w1.
Proof.
  apply (call_finish_once one_payload 1 (event_private false) 3); reflexivity.
Defined.

(** C1. The guard runs [finish] exactly once only on a payload whose flag
    starts clear, and nothing in the file makes it start clear:
    [event_private] declares no constructor and the constructor of
    [nanny_event_private] sets only [m_ward].  Here a nanny event is
    constructed on storage in which the flag reads true, and [call_finish]
    is called three times.  No call fails and [is_finished] is true, but
    already the first exchange returns true: [finish] is never run. *)
Theorem call_finish_on_uninitialised_flag :
  ∃ w, uninitialised_flag_scenario one_ward = Returns true w
       ∧ finish_runs 1 w = 0%nat
       ∧ trace w = [New 1; PyRef 7].
Proof. eexists. split; [vm_compute; reflexivity|]. by vm_compute. Qed.

(** ** The nanny event's ward *)

(** C2. A nanny event for ward 7 (one external reference before) is
    constructed and waited on.  Construction takes the second reference and
    [get_ward] returns 7; the wait runs [finish] once and [is_finished] is
    true; yet [get_ward] still returns 7, the count is still 2 and
    [py::deref] was never called.  Dropping the handle instead and letting
    the release callback run deletes the payload with the count still 2:
    the claim's clearing and decrement live in [finished], which nothing
    dispatches to. *)
Theorem nanny_finish_keeps_ward :
  (∃ w, nanny_wait_scenario one_ward = Returns (7, true, 7) w
        ∧ finish_runs 1 w = 1%nat
        ∧ refcount 7 w = 2
        ∧ occ (PyDeref 7) (trace w) = 0%nat)
  ∧ (∃ w, nanny_drop_scenario one_ward = Returns tt w
          ∧ finish_runs 1 w = 1%nat
          ∧ deletions 1 w = 1%nat
          ∧ refcount 7 w = 2
          ∧ occ (PyDeref 7) (trace w) = 0%nat).
Proof.
  split; eexists; (split; [vm_compute; reflexivity|]); vm_compute; done.
Qed.

(** In general: on any live payload, of either class, [call_finish] leaves
    the object as it was up to the flag (so a nanny payload keeps its ward)
    and touches no external reference count. *)
Lemma call_finish_keeps_ward (w : world) (p : Z) (o : payload) :
  heap w !! p = Some o →
  ∃ w', call_finish p w = Returns tt w'
        ∧ heap w' !! p = Some (set_finished true o)
        ∧ pyrefs w' = pyrefs w.
Proof.
  intros H. destruct (m_finished o) eqn:Hf.
  - rewrite (call_finish_finished _ _ _ H Hf). eexists. split; [done|].
    by rewrite set_finished_same.
  - rewrite (call_finish_unfinished _ _ _ H Hf). eexists. split; [done|].
    simpl. by rewrite lookup_insert_eq.
Qed.

(** What the claim describes is what [finished] would do if it were called:
    the ward pointer is cleared first, and then its reference is released. *)
Lemma finished_clears_then_releases (w : world) (p : Z) (f : bool) (ward : voidp) :
  heap w !! p = Some (nanny_event_private f ward) →
  ∃ w', finished p w = Returns tt w'
        ∧ heap w' !! p = Some (nanny_event_private f nullptr)
        ∧ trace w' = trace w ++ [PyDeref ward]
        ∧ refcount ward w' = refcount ward w - 1.
Proof.
  intros H. unfold finished. munfold. rewrite H. eexists. split; [done|].
  simpl. rewrite lookup_insert_eq. repeat split.
  unfold refcount. simpl. by rewrite lookup_insert_eq.
Qed.

(** ** Construction and destruction of an event handle *)

Lemma delete_live (w : world) (p : Z) (o : payload) :
  p ≠ nullptr → heap w !! p = Some o →
  delete_ p w
  = Returns tt (with_heap (delete p) (with_trace (λ tr, tr ++ [Delete p]) w)).
Proof.
  intros Hp H. unfold delete_. rewrite decide_False by done.
  munfold. by rewrite H.
Qed.

(** C5. When retaining the native handle fails, the constructor deletes the
    payload it was given and then fails with the error of the driver call,
    which carries the driver's status code. *)
Theorem event_ctor_retain_failure (d : driver) (evt : cl_event) (p : Z)
    (o : payload) (w : world) :
  p ≠ nullptr →
  heap w !! p = Some o →
  clRetainEvent d (trace w) evt ≠ CL_SUCCESS →
  ∃ w',
    event_ctor d evt true p w
    = Throws (clerror2 "clRetainEvent" (clRetainEvent d (trace w) evt)) w'
    ∧ heap w' = delete p (heap w)
    ∧ heap w' !! p = None
    ∧ trace w' = trace w ++ [ClRetainEvent evt; Delete p]
    ∧ deletions p w' = S (deletions p w).
Proof.
  intros Hp H Hst. apply Z.eqb_neq in Hst.
  unfold event_ctor, pyopencl_call_guarded. munfold. simpl. rewrite Hst.
  rewrite (delete_live _ _ o) by done.
  eexists. split; [reflexivity|]. simpl. repeat split.
  - apply lookup_delete_eq.
  - by rewrite <- app_assoc.
  - unfold deletions. simpl. rewrite !occ_snoc.
    rewrite decide_False by done. rewrite decide_True by done. lia.
Qed.

Lemma event_ctor_retain_failure_witness :
  ∃ w',
    event_ctor dead_driver 5 true 1 one_payload
    = Throws (clerror2 "clRetainEvent"
                (clRetainEvent dead_driver (trace one_payload) 5)) w'
    ∧ heap w' = delete 1 (heap one_payload)
    ∧ heap w' !! 1 = None
    ∧ trace w' = trace one_payload ++ [ClRetainEvent 5; Delete 1]
    ∧ deletions 1 w' = S (deletions 1 one_payload).
Proof.
  apply (event_ctor_retain_failure dead_driver 5 1 (event_private false)
           one_payload); [done | reflexivity | done].
Defined.

Section Release.

Variable d : driver.
Variable PYOPENCL_CL_VERSION : Z.
Variable support_cb : bool.

Lemma release_private_null (this : event) (w : world) :
  m_p this = nullptr →
  release_private d PYOPENCL_CL_VERSION support_cb this w = Returns tt w.
Proof. intros H. unfold release_private. by rewrite decide_True. Qed.

Lemma release_private_finished (this : event) (w : world) (o : payload) :
  m_p this ≠ nullptr → heap w !! m_p this = Some o → m_finished o = true →
  release_private d PYOPENCL_CL_VERSION support_cb this w
  = Returns tt (with_heap (delete (m_p this))
                  (with_trace (λ tr, tr ++ [Delete (m_p this)]) w)).
Proof.
  intros Hp H Hf. unfold release_private. rewrite decide_False by done.
  unfold mbind, M_bind. rewrite (is_finished_live _ _ _ H), Hf.
  by apply delete_live with o.
Qed.

Lemma set_callback_result (this : event) (type : cl_int) (f : closure) (w : world) :
  set_callback d this type f w
  = let w1 := with_trace (λ tr, tr ++ [ClSetEventCallback (data this) type]) w in
    let st := clSetEventCallback d (trace w) (data this) type in
    if st =? CL_SUCCESS
    then Returns tt (with_callbacks (λ cbs, cbs ++ [(data this, type, f)]) w1)
    else Throws (clerror2 "clSetEventCallback" st) w1.
Proof.
  unfold set_callback, pyopencl_call_guarded. munfold. simpl.
  by destruct (_ =? _).
Qed.

Lemma release_private_unfinished (this : event) (w : world) (o : payload) :
  m_p this ≠ nullptr → heap w !! m_p this = Some o → m_finished o = false →
  release_private d PYOPENCL_CL_VERSION support_cb this w
  = if use_callback PYOPENCL_CL_VERSION support_cb then
      let w1 := with_trace
                  (λ tr, tr ++ [ClSetEventCallback (data this) CL_COMPLETE]) w in
      let st := clSetEventCallback d (trace w) (data this) CL_COMPLETE in
      if st =? CL_SUCCESS
      then Returns tt
             (with_callbacks
                (λ cbs, cbs ++ [(data this, CL_COMPLETE, release_cb (m_p this))])
                w1)
      else Returns tt
             (with_cerr
                (λ out, out ++ [OStr warning_header; OEndl; OStr "";
                                OStr " failed with code "; OInt st; OEndl])
                w1)
    else
      Returns tt (with_threads (λ ts, ts ++ [monitor (data this) (m_p this)])
                    (with_trace (λ tr, tr ++ [Spawn (data this) (m_p this)]) w)).
Proof.
  intros Hp H Hf. unfold release_private. rewrite decide_False by done.
  unfold mbind at 1. unfold M_bind at 1. rewrite (is_finished_live _ _ _ H), Hf.
  destruct (use_callback _ _); [|done].
  unfold try_catch. rewrite set_callback_result. simpl.
  by destruct (_ =? _).
Qed.

End Release.

(** C10. Destroying a handle that has no payload does one thing: it calls
    [clReleaseEvent] on the native handle.  Nothing is registered, spawned,
    deleted or printed. *)
Theorem event_dtor_null_payload (d : driver) (PYOPENCL_CL_VERSION : Z)
    (support_cb : bool) (this : event) (w : world) :
  m_p this = nullptr →
  event_dtor d PYOPENCL_CL_VERSION support_cb this w
  = Returns tt (with_trace (λ tr, tr ++ [ClReleaseEvent (data this)]) w).
Proof.
  intros H. unfold event_dtor, mbind, M_bind.
  by rewrite release_private_null.
Qed.

Lemma event_dtor_null_payload_witness :
  event_dtor ok_driver 0x1010 true bare_handle_5 one_payload
  = Returns tt (with_trace (λ tr, tr ++ [ClReleaseEvent (data bare_handle_5)])
                  one_payload).
Proof.
  apply (event_dtor_null_payload ok_driver 0x1010 true bare_handle_5 one_payload).
  reflexivity.
Defined.

(** ** Release of an unfinished payload when registration fails *)

(** With no callback and no thread pending, completing the deferred work
    does nothing. *)
Lemma drain_quiescent (d : driver) (w : world) :
  callbacks w = [] → threads w = [] → drain d w = Returns tt w.
Proof.
  intros Hc Ht. unfold drain, fire_callbacks, join_threads, mbind, M_bind.
  rewrite Hc. simpl. rewrite Ht. simpl. unfold mret, M_ret. f_equal.
  destruct w; simpl in *; by subst.
Qed.

(** C7. When the driver refuses the completion callback during the release
    of an unfinished payload, [release_private] (and so the destructor)
    still returns normally; the warning written to [std::cerr] contains the
    driver's status code; and the payload is neither finalized nor deleted:
    it stays on the heap, held by no callback and no thread, also after all
    deferred work has completed. *)
Theorem release_private_registration_failure
    (d : driver) (PYOPENCL_CL_VERSION : Z) (support_cb : bool)
    (this : event) (w : world) (o : payload) :
  m_p this ≠ nullptr →
  heap w !! m_p this = Some o →
  m_finished o = false →
  use_callback PYOPENCL_CL_VERSION support_cb = true →
  clSetEventCallback d (trace w) (data this) CL_COMPLETE ≠ CL_SUCCESS →
  ∃ w',
    release_private d PYOPENCL_CL_VERSION support_cb this w = Returns tt w'
    ∧ (∃ w2, event_dtor d PYOPENCL_CL_VERSION support_cb this w = Returns tt w2)
    ∧ cerr w'
      = cerr w ++ [OStr warning_header; OEndl; OStr "";
                   OStr " failed with code ";
                   OInt (clSetEventCallback d (trace w) (data this) CL_COMPLETE);
                   OEndl]
    ∧ heap w' = heap w
    ∧ callbacks w' = callbacks w
    ∧ threads w' = threads w
    ∧ finish_runs (m_p this) w' = finish_runs (m_p this) w
    ∧ deletions (m_p this) w' = deletions (m_p this) w
    ∧ (callbacks w = [] → threads w = [] → drain d w' = Returns tt w').
Proof.
  intros Hp H Hf Hcb Hst. apply Z.eqb_neq in Hst.
  pose proof (release_private_unfinished d PYOPENCL_CL_VERSION support_cb
                this w o Hp H Hf) as Hr.
  rewrite Hcb in Hr. simpl in Hr. rewrite Hst in Hr.
  eexists. split; [exact Hr|].
  split.
  { unfold event_dtor, mbind, M_bind. rewrite Hr. by eexists. }
  repeat split; simpl.
  - unfold finish_runs. simpl. rewrite occ_snoc. rewrite decide_False by done. lia.
  - unfold deletions. simpl. rewrite occ_snoc. rewrite decide_False by done. lia.
  - intros Hc Ht. by apply drain_quiescent.
Qed.

Lemma release_private_registration_failure_witness :
  ∃ w',
    release_private dead_driver 0x1010 true handle_5 one_payload = Returns tt w'
    ∧ (∃ w2, event_dtor dead_driver 0x1010 true handle_5 one_payload
             = Returns tt w2)
    ∧ cerr w'
      = cerr one_payload
        ++ [OStr warning_header; OEndl; OStr "";
            OStr " failed with code ";
            OInt (clSetEventCallback dead_driver (trace one_payload)
                    (data handle_5) CL_COMPLETE);
            OEndl]
    ∧ heap w' = heap one_payload
    ∧ callbacks w' = callbacks one_payload
    ∧ threads w' = threads one_payload
    ∧ finish_runs (m_p handle_5) w' = finish_runs (m_p handle_5) one_payload
    ∧ deletions (m_p handle_5) w' = deletions (m_p handle_5) one_payload
    ∧ (callbacks one_payload = [] → threads one_payload = [] →
       drain dead_driver w' = Returns tt w').
Proof.
  apply (release_private_registration_failure dead_driver 0x1010 true handle_5
           one_payload (event_private false));
    [done | reflexivity | reflexivity | reflexivity | done].
Defined.

(** ** The release-time dispatch *)

Example release_finished_payload :
  ∃ w, release_private ok_driver 0x1010 true handle_5 one_finished_payload
       = Returns tt w
       ∧ trace w = [Delete 1] ∧ heap w !! 1 = None
       ∧ callbacks w = [] ∧ threads w = [].
Proof. eexists. split; [vm_compute; reflexivity|]. by vm_compute. Qed.

Example release_without_callbacks :
  ∃ w, release_private ok_driver 0x1000 true handle_5 one_payload = Returns tt w
       ∧ trace w = [Spawn 5 1] ∧ threads w = [monitor 5 1]
       ∧ callbacks w = [].
Proof. eexists. split; [vm_compute; reflexivity|]. by vm_compute. Qed.

(** The lambda registered by [release_private] and the monitor thread, run
    on a payload that is still live and unfinished: the finalize runs, then
    the payload is deleted. *)
Lemma run_release_cb (p : Z) (o : payload) (status : cl_int) (w : world) :
  p ≠ nullptr → heap w !! p = Some o → m_finished o = false →
  run_closure (release_cb p) status w
  = Returns tt (with_heap (delete p)
                  (with_trace (λ tr, tr ++ [Finish p; Delete p]) w)).
Proof.
  intros Hp H Hf. unfold run_closure.
  erewrite bind_returns by (by apply call_finish_unfinished).
  erewrite delete_live; [|done|simpl; apply lookup_insert_eq].
  f_equal. destruct w; unfold with_heap, with_trace; simpl. f_equal.
  - by rewrite delete_insert_eq.
  - by rewrite <- app_assoc.
Qed.

Lemma run_monitor (d : driver) (evt : cl_event) (p : Z) (o : payload) (w : world) :
  p ≠ nullptr → heap w !! p = Some o → m_finished o = false →
  run_thread d (monitor evt p) w
  = Returns tt (with_heap (delete p)
                  (with_trace
                     (λ tr, tr ++ [ClWaitForEvents [evt]; Finish p; Delete p]) w)).
Proof.
  intros Hp H Hf. unfold run_thread.
  erewrite bind_returns by reflexivity.
  erewrite bind_returns by (by apply call_finish_unfinished).
  erewrite delete_live; [|done|simpl; apply lookup_insert_eq].
  f_equal. destruct w; unfold with_heap, with_trace; simpl. f_equal.
  - by rewrite delete_insert_eq.
  - by rewrite <- !app_assoc.
Qed.

Lemma pending_owners_callback (p : Z) (cb : cl_event * cl_int * closure) (w : world) :
  pending_owners p (with_callbacks (λ cbs, cbs ++ [cb]) w)
  = (pending_owners p w + if captures p cb.2 then 1 else 0)%nat.
Proof.
  unfold pending_owners. simpl. rewrite filter_app, length_app.
  rewrite filter_cons, filter_nil.
  destruct (captures p cb.2); case_decide; try done; simpl; lia.
Qed.

Lemma pending_owners_thread (p : Z) (t : thread_fn) (w : world) :
  pending_owners p (with_threads (λ ts, ts ++ [t]) w)
  = (pending_owners p w + if monitors p t then 1 else 0)%nat.
Proof.
  unfold pending_owners. simpl. rewrite filter_app, length_app.
  rewrite filter_cons, filter_nil.
  destruct (monitors p t); case_decide; try done; simpl; lia.
Qed.

(** C4. Release of a handle with a payload takes exactly one of three
    paths.  A finished payload is deleted on the spot and nothing else
    happens.  Otherwise, where callbacks are supported, the lambda that
    finalizes and deletes the payload is registered for [CL_COMPLETE] (when
    the driver accepts it); where they are not, a monitor thread is detached
    that holds the handle's value and the payload pointer.  Release adds at
    most one holder of the payload (the deletion done, a callback, or a
    thread) and exactly one unless the registration was refused.  When the
    deferred work completes, the callback has finalized and deleted the
    payload, or the thread has waited for exactly this handle and then
    finalized and deleted it; in every case the payload has been deleted at
    most once. *)
Theorem release_private_dispatch (d : driver) (PYOPENCL_CL_VERSION : Z)
    (support_cb : bool) (this : event) (w : world) (o : payload) :
  m_p this ≠ nullptr →
  heap w !! m_p this = Some o →
  let p := m_p this in
  let registered :=
    clSetEventCallback d (trace w) (data this) CL_COMPLETE =? CL_SUCCESS in
  let refused :=
    negb (m_finished o) && use_callback PYOPENCL_CL_VERSION support_cb
    && negb registered in
  ∃ w',
    release_private d PYOPENCL_CL_VERSION support_cb this w = Returns tt w'
    ∧ (if m_finished o then
         trace w' = trace w ++ [Delete p]
         ∧ heap w' = delete p (heap w)
         ∧ callbacks w' = callbacks w
         ∧ threads w' = threads w
       else if use_callback PYOPENCL_CL_VERSION support_cb then
         trace w' = trace w ++ [ClSetEventCallback (data this) CL_COMPLETE]
         ∧ heap w' = heap w
         ∧ callbacks w'
           = callbacks w
             ++ (if registered then [(data this, CL_COMPLETE, release_cb p)]
                 else [])
         ∧ threads w' = threads w
       else
         trace w' = trace w ++ [Spawn (data this) p]
         ∧ heap w' = heap w
         ∧ callbacks w' = callbacks w
         ∧ threads w' = threads w ++ [monitor (data this) p])
    ∧ (deletions p w' + pending_owners p w'
       = deletions p w + pending_owners p w + if refused then 0 else 1)%nat
    ∧ (callbacks w = [] → threads w = [] →
       ∃ w'',
         drain d w' = Returns tt w''
         ∧ trace w''
           = trace w'
             ++ (if m_finished o then []
                 else if use_callback PYOPENCL_CL_VERSION support_cb then
                   if registered then [Finish p; Delete p] else []
                 else [ClWaitForEvents [data this]; Finish p; Delete p])
         ∧ heap w'' !! p = (if refused then Some o else None)
         ∧ (deletions p w''
            = deletions p w + if refused then 0 else 1)%nat).
Proof.
  intros Hp H p registered refused. subst p.
  destruct (m_finished o) eqn:Hf.
  - (* already finished *)
    rewrite (release_private_finished _ _ _ _ _ _ Hp H Hf).
    eexists. split; [reflexivity|]. split; [done|]. subst refused. simpl.
    split.
    { unfold deletions, pending_owners. simpl. rewrite occ_snoc.
      rewrite decide_True by done. lia. }
    intros Hc Ht. rewrite drain_quiescent by done.
    eexists. split; [reflexivity|]. simpl. rewrite app_nil_r.
    split; [done|]. split; [apply lookup_delete_eq|].
    unfold deletions. simpl. rewrite occ_snoc. by rewrite decide_True.
  - rewrite (release_private_unfinished _ _ _ _ _ _ Hp H Hf).
    subst refused. simpl.
    destruct (use_callback PYOPENCL_CL_VERSION support_cb) eqn:Hcb; simpl.
    + subst registered. destruct (_ =? _) eqn:Hreg; simpl.
      * (* callback registered *)
        eexists. split; [reflexivity|]. split; [done|]. split.
        { rewrite pending_owners_callback. simpl.
          rewrite bool_decide_eq_true_2 by done.
          unfold deletions, pending_owners. simpl. rewrite occ_snoc.
          rewrite decide_False by done. lia. }
        intros Hc Ht.
        unfold drain. erewrite bind_returns; cycle 1.
        { unfold fire_callbacks. simpl. rewrite Hc. simpl.
          erewrite bind_returns; [reflexivity|].
          simpl. eapply run_release_cb with (o := o) (status := CL_COMPLETE); [exact Hp | exact H | exact Hf]. }
        unfold join_threads. simpl. rewrite Ht. simpl.
        eexists. split; [reflexivity|]. simpl.
        split; [by rewrite <- app_assoc|].
        split; [apply lookup_delete_eq|].
        unfold deletions. simpl. rewrite !occ_app. unfold occ. simpl.
        rewrite !filter_cons, filter_nil.
        repeat case_decide; try done. simpl. lia.
      * (* registration refused *)
        eexists. split; [reflexivity|]. simpl. rewrite app_nil_r.
        split; [done|]. split.
        { unfold deletions, pending_owners. simpl. rewrite occ_snoc.
          rewrite decide_False by done. lia. }
        intros Hc Ht. rewrite drain_quiescent by done.
        eexists. split; [reflexivity|]. simpl. rewrite app_nil_r.
        split; [done|]. split; [done|].
        unfold deletions. simpl. rewrite occ_snoc.
        rewrite decide_False by done. lia.
    + (* monitor thread *)
      eexists. split; [reflexivity|]. split; [done|]. split.
      { rewrite pending_owners_thread. simpl.
        rewrite bool_decide_eq_true_2 by done.
        unfold deletions, pending_owners. simpl. rewrite occ_snoc.
        rewrite decide_False by done. lia. }
      intros Hc Ht.
      unfold drain. erewrite bind_returns; cycle 1.
      { unfold fire_callbacks. simpl. rewrite Hc. reflexivity. }
      unfold join_threads. simpl. rewrite Ht. simpl.
      erewrite bind_returns; cycle 1.
      { simpl. eapply run_monitor with (o := o) (d := d); [exact Hp | exact H | exact Hf]. }
      eexists. split; [reflexivity|]. simpl.
      split; [by rewrite <- app_assoc|].
      split; [apply lookup_delete_eq|].
      unfold deletions. simpl. rewrite !occ_app. unfold occ. simpl.
      rewrite !filter_cons, filter_nil.
      repeat case_decide; try done. simpl. lia.
Qed.

Lemma release_private_dispatch_witness :
  ∃ w',
    release_private ok_driver 0x1010 true handle_5 one_payload = Returns tt w'
    ∧ callbacks w' = [(5, CL_COMPLETE, release_cb 1)]
    ∧ ∃ w'', drain ok_driver w' = Returns tt w''
             ∧ heap w'' !! 1 = None
             ∧ deletions 1 w'' = 1%nat.
Proof.
  destruct (release_private_dispatch ok_driver 0x1010 true handle_5 one_payload
              (event_private false))
    as (w' & Hr & Hpath & _ & Hdrain); [done | reflexivity |].
  exists w'. split; [exact Hr|].
  simpl in Hpath. destruct Hpath as (_ & _ & Hcb & _). split; [exact Hcb|].
  destruct (Hdrain eq_refl eq_refl) as (w'' & Hd & _ & Hheap & Hdel).
  exists w''. split; [exact Hd|]. split; [exact Hheap | exact Hdel].
Defined.

(** ** Info queries *)

Lemma pyopencl_get_opaque_info_returns (d : driver) (c : clobj_class)
    (this : event) (param : cl_uint) (w w' : world) (v : generic_info) :
  pyopencl_get_opaque_info d c this param w = Returns v w' →
  ∃ h, v = opaque_info c h.
Proof.
  unfold pyopencl_get_opaque_info. munfold. simpl.
  destruct (_ =? _); [|done]. intros [= <- _]. by eexists.
Qed.

Lemma pyopencl_get_int_info_returns (d : driver) (t : int_type) (prof : bool)
    (this : event) (param : cl_uint) (w w' : world) (v : generic_info) :
  pyopencl_get_int_info d t prof this param w = Returns v w' →
  ∃ n, v = int_info t n.
Proof.
  unfold pyopencl_get_int_info. munfold.
  destruct prof; simpl; (destruct (_ =? _); [|done]); intros [= <- _];
    by eexists.
Qed.

(** C6. [get_info] returns a value only for the five event fields, and the
    value is of the kind that belongs to the field; [get_profiling_info]
    returns a value, a 64-bit counter, only for the four timestamps.  For
    any other field each of them throws [CL_INVALID_VALUE] without calling
    the driver or changing anything, and the C entry point of the profiling
    query returns that error and leaves [*out] as it was. *)
Theorem info_field_validation (d : driver) (PYOPENCL_CL_VERSION : Z)
    (this : event) (param : cl_uint) (out : Z) (w : world) :
  (∀ v w', get_info d PYOPENCL_CL_VERSION this param w = Returns v w' →
           param ∈ event_info_fields
           ∧ info_field_of PYOPENCL_CL_VERSION v = Some param)
  ∧ (param ∉ event_info_fields →
     get_info d PYOPENCL_CL_VERSION this param w
     = Throws (clerror2 "Event.get_info" CL_INVALID_VALUE) w)
  ∧ (∀ v w', get_profiling_info d this param w = Returns v w' →
             param ∈ profiling_fields ∧ ∃ n, v = int_info type_cl_ulong n)
  ∧ (param ∉ profiling_fields →
     get_profiling_info d this param w
     = Throws (clerror2 "Event.get_profiling_info" CL_INVALID_VALUE) w
     ∧ event__get_profiling_info d this param out w
       = Returns (Some (clerror2 "Event.get_profiling_info" CL_INVALID_VALUE)) w).
Proof.
  unfold event_info_fields, profiling_fields.
  split; [|split; [|split]].
  - intros v w'. unfold get_info.
    destruct (Z.eqb_spec param CL_EVENT_COMMAND_QUEUE) as [->|_].
    { intros [h ->]%pyopencl_get_opaque_info_returns. split; [set_solver|done]. }
    destruct (Z.eqb_spec param CL_EVENT_COMMAND_TYPE) as [->|_].
    { intros [n ->]%pyopencl_get_int_info_returns. split; [set_solver|done]. }
    destruct (Z.eqb_spec param CL_EVENT_COMMAND_EXECUTION_STATUS) as [->|_].
    { intros [n ->]%pyopencl_get_int_info_returns. split; [set_solver|done]. }
    destruct (Z.eqb_spec param CL_EVENT_REFERENCE_COUNT) as [->|_].
    { intros [n ->]%pyopencl_get_int_info_returns. split; [set_solver|done]. }
    destruct (0x1010 <=? PYOPENCL_CL_VERSION) eqn:Hv; simpl; [|done].
    destruct (Z.eqb_spec param CL_EVENT_CONTEXT) as [->|_]; [|done].
    intros [h ->]%pyopencl_get_opaque_info_returns.
    split; [set_solver|]. simpl. by rewrite Hv.
  - intros Hn. unfold get_info.
    repeat match goal with
    | |- context [param =? ?c] =>
        destruct (Z.eqb_spec param c) as [->|_]; [exfalso; set_solver|]
    end.
    by rewrite andb_false_r.
  - intros v w'. unfold get_profiling_info.
    destruct (Z.eqb_spec param CL_PROFILING_COMMAND_QUEUED) as [->|_]; simpl.
    { intros H. split; [set_solver|]. by eapply pyopencl_get_int_info_returns. }
    destruct (Z.eqb_spec param CL_PROFILING_COMMAND_SUBMIT) as [->|_]; simpl.
    { intros H. split; [set_solver|]. by eapply pyopencl_get_int_info_returns. }
    destruct (Z.eqb_spec param CL_PROFILING_COMMAND_START) as [->|_]; simpl.
    { intros H. split; [set_solver|]. by eapply pyopencl_get_int_info_returns. }
    destruct (Z.eqb_spec param CL_PROFILING_COMMAND_END) as [->|_]; simpl.
    { intros H. split; [set_solver|]. by eapply pyopencl_get_int_info_returns. }
    done.
  - intros Hn.
    assert (get_profiling_info d this param w
            = Throws (clerror2 "Event.get_profiling_info" CL_INVALID_VALUE) w)
      as Hthrow.
    { unfold get_profiling_info.
      repeat match goal with
      | |- context [param =? ?c] =>
          destruct (Z.eqb_spec param c) as [->|_]; [exfalso; set_solver|]
      end.
      done. }
    split; [exact Hthrow|].
    unfold event__get_profiling_info, c_handle_error, mbind, M_bind.
    by rewrite Hthrow.
Qed.

Lemma info_field_validation_witness :
  get_info ok_driver 0x1010 handle_5 0 one_payload
  = Throws (clerror2 "Event.get_info" CL_INVALID_VALUE) one_payload
  ∧ event__get_profiling_info ok_driver handle_5 0 9 one_payload
    = Returns (Some (clerror2 "Event.get_profiling_info" CL_INVALID_VALUE))
        one_payload.
Proof.
  destruct (info_field_validation ok_driver 0x1010 handle_5 0 9 one_payload)
    as (_ & Hinfo & _ & Hprof).
  split.
  - apply Hinfo. compute_done.
  - apply Hprof. compute_done.
Defined.

(** ** Waiting for a set of events *)

Example wait_for_events_two :
  ∃ w, wait_for_events conformant_driver [handle_5; bare_handle_5] empty_world
       = Returns None w
       ∧ trace w = [ClWaitForEvents [5; 5]].
Proof. eexists. split; [vm_compute; reflexivity|]. by vm_compute. Qed.

(** For an empty set the wrapper still calls [clWaitForEvents], with zero
    events, and its result is the driver's answer to that call. *)
Lemma wait_for_events_result (d : driver) (wait_for : list event) (w : world) :
  wait_for_events d wait_for w
  = let st := clWaitForEvents d (trace w) (data <$> wait_for) in
    Returns (if st =? CL_SUCCESS then None
             else Some (clerror2 "clWaitForEvents" st))
      (with_trace (λ tr, tr ++ [ClWaitForEvents (data <$> wait_for)]) w).
Proof.
  unfold wait_for_events, c_handle_error, pyopencl_call_guarded. munfold.
  simpl. by destruct (_ =? _).
Qed.

(** C8, as stated, fails: with a driver that follows the OpenCL
    specification, waiting for no events makes a driver call with zero
    elements, and the call comes back as an error with [CL_INVALID_VALUE]. *)
Lemma wait_for_events_empty_fails :
  wait_for_events conformant_driver [] empty_world
  = Returns (Some (clerror2 "clWaitForEvents" CL_INVALID_VALUE))
      (with_trace (λ _, [ClWaitForEvents []]) empty_world).
Proof. reflexivity. Qed.

(** C8, amended. Waiting for an empty set of handles does not return
    before reaching the driver: the wrapper makes one [clWaitForEvents] call
    with zero events, and succeeds exactly when the driver accepts that
    call; otherwise it returns the error carrying the driver's status. *)
Theorem wait_for_events_empty (d : driver) (w : world) :
  ∃ w',
    wait_for_events d [] w
    = Returns (if clWaitForEvents d (trace w) [] =? CL_SUCCESS then None
               else Some (clerror2 "clWaitForEvents"
                            (clWaitForEvents d (trace w) []))) w'
    ∧ trace w' = trace w ++ [ClWaitForEvents []]
    ∧ (wait_for_events d [] w = Returns None w'
       ↔ clWaitForEvents d (trace w) [] = CL_SUCCESS).
Proof.
  rewrite wait_for_events_result. simpl. eexists. split; [reflexivity|].
  split; [done|].
  destruct (Z.eqb_spec (clWaitForEvents d (trace w) []) CL_SUCCESS) as [E|E].
  - by rewrite E.
  - split; [intros [=] | done].
Qed.

(** ** The callback token of [event__set_callback] *)

Lemma refcount_insert (obj : voidp) (n : Z) (w : world) :
  refcount obj (with_pyrefs (insert obj n) w) = n.
Proof. unfold refcount. simpl. by rewrite lookup_insert_eq. Qed.

Lemma py_ref_result (obj : voidp) (w : world) :
  py_ref obj w
  = Returns obj (with_pyrefs (insert obj (refcount obj w + 1))
                   (with_trace (λ tr, tr ++ [PyRef obj]) w)).
Proof. reflexivity. Qed.

Lemma py_deref_result (obj : voidp) (w : world) :
  py_deref obj w
  = Returns tt (with_pyrefs (insert obj (refcount obj w - 1))
                  (with_trace (λ tr, tr ++ [PyDeref obj]) w)).
Proof. reflexivity. Qed.

(** The registered lambda calls the token and then releases one reference
    on it, in whatever state the driver invokes it. *)
Lemma run_python_cb (pyobj : voidp) (status : cl_int) (w : world) :
  ∃ w', run_closure (python_cb pyobj) status w = Returns tt w'
        ∧ trace w' = trace w ++ [PyCall pyobj status; PyDeref pyobj]
        ∧ refcount pyobj w' = refcount pyobj w - 1
        ∧ callbacks w' = callbacks w.
Proof.
  eexists. split; [reflexivity|]. simpl. repeat split.
  - by rewrite <- app_assoc.
  - by rewrite refcount_insert.
Qed.

(** C9. [event__set_callback] takes a reference on the token before it
    registers anything.  If the driver accepts the registration, the entry
    point itself releases nothing and the one release happens when the
    registered lambda runs, after it has called the token; if the driver
    refuses, the entry point releases the reference itself, once, and
    registers nothing. *)
Theorem event__set_callback_token (d : driver) (evt : event) (type : cl_int)
    (pyobj : voidp) (w : world) :
  ∃ w',
    event__set_callback d evt type pyobj w = Returns None w'
    ∧ if clSetEventCallback d (trace w ++ [PyRef pyobj]) (data evt) type
         =? CL_SUCCESS
      then
        trace w' = trace w ++ [PyRef pyobj; ClSetEventCallback (data evt) type]
        ∧ callbacks w' = callbacks w ++ [(data evt, type, python_cb pyobj)]
        ∧ refcount pyobj w' = refcount pyobj w + 1
        ∧ ∀ status, ∃ w'',
            run_closure (python_cb pyobj) status w' = Returns tt w''
            ∧ trace w'' = trace w' ++ [PyCall pyobj status; PyDeref pyobj]
            ∧ refcount pyobj w'' = refcount pyobj w
      else
        trace w' = trace w ++ [PyRef pyobj; ClSetEventCallback (data evt) type;
                               PyDeref pyobj]
        ∧ callbacks w' = callbacks w
        ∧ refcount pyobj w' = refcount pyobj w.
Proof.
  unfold event__set_callback, c_handle_error.
  unfold mbind, M_bind. rewrite py_ref_result. cbv beta iota.
  unfold try_catch. rewrite set_callback_result. cbv zeta.
  change (trace (with_pyrefs _ (with_trace _ w))) with (trace w ++ [PyRef pyobj]).
  destruct (_ =? _) eqn:E.
  - eexists. split; [reflexivity|].
    split; [simpl; by rewrite <- app_assoc|].
    split; [done|].
    split; [unfold refcount; simpl; by rewrite lookup_insert_eq|].
    intros status.
    edestruct (run_python_cb pyobj status) as (w'' & Hrun & Htr & Hrc & _).
    exists w''. split; [exact Hrun|]. split; [exact Htr|].
    rewrite Hrc. unfold refcount. simpl. rewrite lookup_insert_eq. simpl. lia.
  - rewrite py_deref_result. eexists. split; [reflexivity|].
    split; [simpl; by rewrite <- !app_assoc|].
    split; [done|].
    unfold refcount. simpl. rewrite !lookup_insert_eq. simpl. lia.
Qed.

(** ** Threads racing through [wait] *)

Section Race.

Variable d : driver.
Variable this : event.
Hypothesis has_payload : m_p this ≠ nullptr.

Lemma thread_step_wait (w : world) :
  thread_step d this at_wait w
  = let st := clWaitForEvents d (trace w) [data this] in
    Returns (if st =? CL_SUCCESS then at_exchange
             else thrown (clerror2 "clWaitForEvents" st))
      (with_trace (λ tr, tr ++ [ClWaitForEvents [data this]]) w).
Proof.
  unfold thread_step, pyopencl_call_guarded. munfold. simpl.
  destruct (_ =? _); [|done]. by rewrite decide_False.
Qed.

Lemma thread_step_exchange (w : world) (o : payload) :
  heap w !! m_p this = Some o →
  thread_step d this at_exchange w
  = Returns (if m_finished o then returned else at_finish)
      (with_heap (insert (m_p this) (set_finished true o)) w).
Proof.
  intros H. unfold thread_step.
  by erewrite bind_returns by (by apply exchange_live).
Qed.

Lemma thread_step_finish (w : world) (o : payload) :
  heap w !! m_p this = Some o →
  thread_step d this at_finish w
  = Returns returned (with_trace (λ tr, tr ++ [Finish (m_p this)]) w).
Proof.
  intros H. unfold thread_step.
  by erewrite bind_returns by (by eapply finish_live).
Qed.

Lemma inside_finish_insert (pcs : list pc) (i : nat) (c c' : pc) :
  pcs !! i = Some c →
  (inside_finish (<[i := c']> pcs) + (if decide (at_finish = c) then 1 else 0)
   = inside_finish pcs + (if decide (at_finish = c') then 1 else 0))%nat.
Proof.
  unfold inside_finish. revert i.
  induction pcs as [|a pcs IH]; intros [|i] H; simplify_eq/=.
  - rewrite !filter_cons. repeat case_decide; simpl; lia.
  - specialize (IH i H). rewrite !filter_cons.
    destruct (decide (at_finish = a)); simpl; lia.
Qed.

Lemma lookup_insert_returned (pcs : list pc) (i j : nat) (c c' : pc) :
  pcs !! i = Some c →
  <[i := c']> pcs !! j = Some returned →
  (j = i ∧ c' = returned) ∨ pcs !! j = Some returned.
Proof.
  intros Hi Hj. destruct (decide (i = j)) as [->|Hne].
  - rewrite list_lookup_insert_eq in Hj by (by eapply lookup_lt_Some).
    left. by simplify_eq.
  - rewrite list_lookup_insert_ne in Hj by done. by right.
Qed.

(** Every step of every thread preserves the invariant. *)
Lemma sched_step_inv (r0 : nat) (i : nat) (cfg cfg' : config) :
  guard_inv (m_p this) r0 cfg →
  sched_step d this i cfg = Some cfg' →
  guard_inv (m_p this) r0 cfg'.
Proof.
  destruct cfg as [pcs w]. intros (o & Hlive & Hmono & Hcount & Hret).
  unfold sched_step. simpl in *.
  destruct (pcs !! i) as [c|] eqn:Hi; [|done].
  pose proof (inside_finish_insert pcs i c) as Hins.
  unfold guard_inv, finish_runs in *.
  destruct c.
  - (* the driver call *)
    rewrite thread_step_wait. simpl. intros [= <-].
    exists o. simpl. rewrite occ_snoc, decide_False by done.
    split; [done|]. split; [lia|]. split.
    + specialize (Hins (if clWaitForEvents d (trace w) [data this] =? CL_SUCCESS
                        then at_exchange
                        else thrown (clerror2 "clWaitForEvents"
                               (clWaitForEvents d (trace w) [data this]))) Hi).
      rewrite decide_False in Hins by done.
      destruct (_ =? _); rewrite decide_False in Hins by done; lia.
    + intros j Hj.
      eapply lookup_insert_returned in Hj as [[_ Hc]|Hj]; [|eauto|done].
      by destruct (_ =? _).
  - (* the atomic exchange *)
    rewrite (thread_step_exchange _ _ Hlive). intros [= <-].
    exists (set_finished true o). simpl. rewrite lookup_insert_eq.
    split; [done|]. rewrite m_finished_set. split; [lia|]. split; [|done].
    specialize (Hins (if m_finished o then returned else at_finish) Hi).
    rewrite decide_False in Hins by done.
    destruct (m_finished o).
    + rewrite decide_False in Hins by done. lia.
    + rewrite decide_True in Hins by done. lia.
  - (* the call of finish *)
    rewrite (thread_step_finish _ _ Hlive). intros [= <-].
    exists o. simpl. rewrite occ_snoc, decide_True by done.
    split; [done|]. split; [lia|].
    specialize (Hins returned Hi).
    rewrite decide_True in Hins by done. rewrite decide_False in Hins by done.
    assert (m_finished o = true) as Hfin.
    { destruct (m_finished o); [done|]. lia. }
    rewrite Hfin in *. split; [lia|done].
  - (* a thread that has left [wait] stays where it is *)
    simpl. intros [= <-]. exists o. simpl.
    rewrite list_insert_id by done. by repeat split.
  - simpl. intros [= <-]. exists o. simpl.
    rewrite list_insert_id by done. by repeat split.
Qed.

Lemma run_schedule_inv (r0 : nat) (s : list nat) (cfg cfg' : config) :
  guard_inv (m_p this) r0 cfg →
  run_schedule d this s cfg = Some cfg' →
  guard_inv (m_p this) r0 cfg'.
Proof.
  revert cfg. induction s as [|i s IH]; intros cfg Hinv; simpl.
  - by intros [= <-].
  - destruct (sched_step d this i cfg) as [cfg1|] eqn:Hstep; [|done].
    apply IH. by eapply sched_step_inv.
Qed.

End Race.

Lemma inside_finish_replicate (n : nat) : inside_finish (replicate n at_wait) = 0%nat.
Proof.
  unfold inside_finish. induction n as [|n IH]; [done|].
  simpl. by rewrite filter_cons, decide_False.
Qed.

Lemma guard_inv_initial (p : Z) (o : payload) (n : nat) (w : world) :
  heap w !! p = Some o → m_finished o = false →
  guard_inv p (finish_runs p w) (replicate n at_wait, w).
Proof.
  intros H Hf. exists o. simpl. rewrite inside_finish_replicate, Hf.
  split; [done|]. split; [lia|]. split; [lia|].
  intros i Hi. apply lookup_replicate_1 in Hi as [[=] _].
Qed.

(** While the invariant holds no step of a thread is undefined: every
    schedule over existing threads can be run. *)
Lemma sched_step_progress (d : driver) (this : event) (r0 : nat) (i : nat)
    (cfg : config) :
  m_p this ≠ nullptr →
  guard_inv (m_p this) r0 cfg →
  (i < length cfg.1)%nat →
  ∃ cfg', sched_step d this i cfg = Some cfg'.
Proof.
  intros Hp (o & Hlive & _) Hi. unfold sched_step.
  destruct (lookup_lt_is_Some_2 _ _ Hi) as [c ->].
  destruct c.
  - rewrite thread_step_wait by done. by eexists.
  - rewrite (thread_step_exchange _ _ _ _ Hlive). by eexists.
  - rewrite (thread_step_finish _ _ _ _ Hlive). by eexists.
  - by eexists.
  - by eexists.
Qed.

(** However the threads interleave, [finish] runs at most once. *)
Lemma racing_finish_at_most_once (d : driver) (this : event) (w0 w : world)
    (o0 : payload) (n : nat) (s : list nat) (pcs : list pc) :
  m_p this ≠ nullptr → heap w0 !! m_p this = Some o0 → m_finished o0 = false →
  run_schedule d this s (replicate n at_wait, w0) = Some (pcs, w) →
  (finish_runs (m_p this) w0 ≤ finish_runs (m_p this) w
   ≤ S (finish_runs (m_p this) w0))%nat.
Proof.
  intros Hp H Hf Hrun.
  destruct (run_schedule_inv d this Hp _ _ _ _
              (guard_inv_initial _ _ n _ H Hf) Hrun)
    as (o & _ & Hmono & Hcount & _).
  simpl in *. destruct (m_finished o); lia.
Qed.

Lemma sched_step_eq (d : driver) (this : event) (i : nat) (pcs : list pc)
    (c c' : pc) (w w' : world) :
  pcs !! i = Some c →
  thread_step d this c w = Returns c' w' →
  sched_step d this i (pcs, w) = Some (<[i := c']> pcs, w').
Proof. intros Hi Hs. unfold sched_step. simpl. by rewrite Hi, Hs. Qed.

(** One call of [wait] with nothing interleaved is the three steps of one
    thread. *)
Lemma wait_as_schedule (d : driver) (this : event) (w w' : world) (o : payload) :
  m_p this ≠ nullptr → heap w !! m_p this = Some o →
  wait d this w = Returns tt w'
  ↔ run_schedule d this [0; 0; 0]%nat ([at_wait], w) = Some ([returned], w').
Proof.
  intros Hp H.
  set (w1 := with_trace (λ tr, tr ++ [ClWaitForEvents [data this]]) w).
  assert (heap w1 !! m_p this = Some o) as H1 by done.
  pose proof (thread_step_wait d this Hp w) as Hstep. cbv zeta in Hstep.
  unfold wait, pyopencl_call_guarded, native, get_trace, log, modify.
  unfold mbind, M_bind, mret, M_ret. unfold run_schedule.
  destruct (clWaitForEvents d (trace w) [data this] =? CL_SUCCESS) eqn:E.
  - rewrite decide_False by done. fold w1 in Hstep |- *.
    erewrite sched_step_eq; [|done|exact Hstep].
    erewrite sched_step_eq; [|done|by apply thread_step_exchange].
    destruct (m_finished o) eqn:Hf.
    + rewrite (call_finish_finished _ _ _ H1 Hf).
      rewrite set_finished_same, with_heap_insert_id by done.
      erewrite sched_step_eq; [|done|reflexivity].
      simpl. split; intros [= <-]; done.
    + rewrite (call_finish_unfinished _ _ _ H1 Hf).
      erewrite sched_step_eq;
        [|done|eapply thread_step_finish; simpl; apply lookup_insert_eq].
      simpl. split; intros [= <-]; done.
  - erewrite sched_step_eq; [|done|exact Hstep].
    erewrite sched_step_eq; [|done|reflexivity].
    erewrite sched_step_eq; [|done|reflexivity].
    simpl. split; [intros [=]|intros [=]].
Qed.

(** When the flag is set at the start it stays set, no thread ever gets to
    run [finish], and the number of its runs does not change. *)
Lemma sched_step_set_inv (d : driver) (this : event) (r0 : nat) (i : nat)
    (cfg cfg' : config) :
  m_p this ≠ nullptr →
  set_inv (m_p this) r0 cfg →
  sched_step d this i cfg = Some cfg' →
  set_inv (m_p this) r0 cfg'.
Proof.
  intros Hp. destruct cfg as [pcs w].
  intros (o & Hlive & Hset & Hnone & Hruns).
  unfold sched_step. simpl in *.
  destruct (pcs !! i) as [c|] eqn:Hi; [|done].
  pose proof (inside_finish_insert this Hp pcs i c) as Hins.
  unfold set_inv, finish_runs in *.
  destruct c.
  - rewrite thread_step_wait by done. simpl. intros [= <-].
    exists o. simpl. rewrite occ_snoc, decide_False by done.
    split; [done|]. split; [done|]. split; [|lia].
    specialize (Hins (if clWaitForEvents d (trace w) [data this] =? CL_SUCCESS
                      then at_exchange
                      else thrown (clerror2 "clWaitForEvents"
                             (clWaitForEvents d (trace w) [data this]))) Hi).
    rewrite decide_False in Hins by done.
    destruct (_ =? _); rewrite decide_False in Hins by done; lia.
  - rewrite (thread_step_exchange _ _ _ _ Hlive). intros [= <-].
    exists (set_finished true o). simpl. rewrite lookup_insert_eq.
    split; [done|]. rewrite m_finished_set. split; [done|]. split; [|done].
    specialize (Hins (if m_finished o then returned else at_finish) Hi).
    rewrite Hset in *. do 2 rewrite decide_False in Hins by done. lia.
  - specialize (Hins returned Hi).
    rewrite decide_True in Hins by done. rewrite decide_False in Hins by done.
    lia.
  - simpl. intros [= <-]. exists o. simpl.
    rewrite list_insert_id by done. by repeat split.
  - simpl. intros [= <-]. exists o. simpl.
    rewrite list_insert_id by done. by repeat split.
Qed.

Lemma run_schedule_set_inv (d : driver) (this : event) (r0 : nat)
    (s : list nat) (cfg cfg' : config) :
  m_p this ≠ nullptr →
  set_inv (m_p this) r0 cfg →
  run_schedule d this s cfg = Some cfg' →
  set_inv (m_p this) r0 cfg'.
Proof.
  intros Hp. revert cfg. induction s as [|i s IH]; intros cfg Hinv; simpl.
  - by intros [= <-].
  - destruct (sched_step d this i cfg) as [cfg1|] eqn:Hstep; [|done].
    apply IH. by eapply sched_step_set_inv.
Qed.

Lemma set_inv_initial (p : Z) (o : payload) (n : nat) (w : world) :
  heap w !! p = Some o → m_finished o = true →
  set_inv p (finish_runs p w) (replicate n at_wait, w).
Proof.
  intros H Hf. exists o. simpl. by rewrite inside_finish_replicate.
Qed.




(** * Further properties of the event wrapper *)

(** ** Counting actions *)

Lemma occ_nil (a : action) : occ a [] = 0%nat.
Proof. reflexivity. Qed.

Lemma occ_cons (a b : action) (tr : list action) :
  occ a (b :: tr) = ((if decide (a = b) then 1 else 0) + occ a tr)%nat.
Proof. unfold occ. rewrite filter_cons. by case_decide. Qed.

Ltac occ_count :=
  rewrite ?occ_app, ?occ_cons, ?occ_nil;
  repeat case_decide; simplify_eq; try lia.

(** ** Construction of a nanny event *)

Lemma fresh_payload_address (h : gmap Z payload) :
  fresh ({[nullptr]} ∪ dom h) ≠ nullptr ∧ h !! fresh ({[nullptr]} ∪ dom h) = None.
Proof.
  pose proof (is_fresh ({[nullptr]} ∪ dom h)) as Hf. split.
  - set_solver.
  - apply not_elem_of_dom. set_solver.
Qed.

(** The payload constructor allocates a fresh object, takes one reference
    on the ward and stores what [py::ref] returned. *)
Lemma nanny_event_private_ctor_result (init : bool) (ward : voidp) (w : world) :
  ∃ p w',
    nanny_event_private_ctor init ward w = Returns p w'
    ∧ p ≠ nullptr
    ∧ heap w !! p = None
    ∧ heap w' = <[p := nanny_event_private init ward]> (heap w)
    ∧ pyrefs w' = <[ward := refcount ward w + 1]> (pyrefs w)
    ∧ trace w' = trace w ++ [New p; PyRef ward]
    ∧ callbacks w' = callbacks w ∧ threads w' = threads w
    ∧ cerr w' = cerr w ∧ outs w' = outs w.
Proof.
  destruct (fresh_payload_address (heap w)) as [Hp Hfresh].
  unfold nanny_event_private_ctor.
  erewrite bind_returns by reflexivity.
  erewrite bind_returns by reflexivity.
  erewrite bind_returns
    by (unfold load; simpl; rewrite lookup_insert_eq; reflexivity).
  eexists _, _. split; [reflexivity|]. simpl.
  split; [exact Hp|]. split; [exact Hfresh|].
  split; [by rewrite insert_insert_eq|].
  split; [done|]. split; [by rewrite <- app_assoc|]. done.
Qed.

Lemma event_ctor_result (d : driver) (evt : cl_event) (retain : bool) (p : Z)
    (w : world) :
  event_ctor d evt retain p w
  = if retain then
      let w1 := with_trace (λ tr, tr ++ [ClRetainEvent evt]) w in
      let st := clRetainEvent d (trace w) evt in
      if st =? CL_SUCCESS then Returns (Build_event evt p) w1
      else match delete_ p w1 with
           | Returns _ w2 => Throws (clerror2 "clRetainEvent" st) w2
           | Throws e w2 => Throws e w2
           | Undefined => Undefined
           end
    else Returns (Build_event evt p) w.
Proof.
  unfold event_ctor. destruct retain; [|reflexivity].
  unfold pyopencl_call_guarded. munfold. simpl.
  destruct (_ =? _); [reflexivity|]. by destruct (delete_ p _).
Qed.

(** X1. A nanny event built for a non-null ward (with a driver that accepts
    the retain, when one is asked for) owns a payload at a fresh, non-null
    address; exactly one reference on the ward has been taken; no other
    payload has changed; and [get_ward], also through the C entry point,
    returns the ward without changing anything. *)
Theorem nanny_event_holds_ward (d : driver) (init : bool) (evt : cl_event)
    (retain : bool) (ward : voidp) (w : world) :
  ward ≠ nullptr →
  (retain = true → ∀ tr, clRetainEvent d tr evt = CL_SUCCESS) →
  ∃ e w',
    nanny_event_ctor d init evt retain ward w = Returns e w'
    ∧ data e = evt
    ∧ m_p e ≠ nullptr
    ∧ heap w !! m_p e = None
    ∧ heap w' = <[m_p e := nanny_event_private init ward]> (heap w)
    ∧ refcount ward w' = refcount ward w + 1
    ∧ occ (PyRef ward) (trace w') = S (occ (PyRef ward) (trace w))
    ∧ get_ward e w' = Returns ward w'
    ∧ nanny_event__get_ward e w' = Returns ward w'.
Proof.
  intros Hward Hretain.
  destruct (nanny_event_private_ctor_result init ward w)
    as (p & w1 & Hctor & Hp & Hfresh & Hheap & Hrefs & Htr & _).
  unfold nanny_event_ctor. rewrite decide_False by done.
  erewrite bind_returns by exact Hctor.
  rewrite event_ctor_result.
  assert (∀ w2, heap w2 = heap w1 →
            get_ward (Build_event evt p) w2 = Returns ward w2) as Hget.
  { intros w2 Hw2. unfold get_ward, payload_get_ward. simpl.
    rewrite decide_False by done. unfold mbind, M_bind, load.
    by rewrite Hw2, Hheap, lookup_insert_eq. }
  destruct retain.
  - cbv zeta. rewrite (Hretain eq_refl). simpl.
    eexists _, _. split; [reflexivity|]. simpl.
    split; [done|]. split; [done|]. split; [done|]. split; [done|].
    split; [unfold refcount; simpl; by rewrite Hrefs, lookup_insert_eq|].
    split.
    { rewrite Htr. occ_count. }
    split; by apply Hget.
  - eexists _, _. split; [reflexivity|]. simpl.
    split; [done|]. split; [done|]. split; [done|]. split; [done|].
    split; [unfold refcount; by rewrite Hrefs, lookup_insert_eq|].
    split.
    { rewrite Htr. occ_count. }
    split; by apply Hget.
Qed.

Lemma nanny_event_holds_ward_witness :
  ∃ e w',
    nanny_event_ctor ok_driver false 5 true 7 one_ward = Returns e w'
    ∧ refcount 7 w' = 2
    ∧ get_ward e w' = Returns 7 w'.
Proof.
  destruct (nanny_event_holds_ward ok_driver false 5 true 7 one_ward)
    as (e & w' & Hc & _ & _ & _ & _ & Hrc & _ & Hg & _);
    [done | done |].
  exists e, w'. split; [exact Hc|]. split; [exact Hrc | exact Hg].
Defined.

(** X2. With a null ward the nanny event is a bare event: no payload is
    allocated and no reference is taken.  The only thing that can happen is
    the retain of the native handle; when that fails the constructor throws
    the driver's error, and there is nothing to delete.  [get_ward] on such
    a handle returns [nullptr]. *)
Theorem nanny_event_null_ward (d : driver) (init : bool) (evt : cl_event)
    (retain : bool) (w : world) :
  let st := clRetainEvent d (trace w) evt in
  let w1 := if retain then with_trace (λ tr, tr ++ [ClRetainEvent evt]) w
            else w in
  nanny_event_ctor d init evt retain nullptr w
  = (if retain && negb (st =? CL_SUCCESS)
     then Throws (clerror2 "clRetainEvent" st) w1
     else Returns (Build_event evt nullptr) w1)
  ∧ get_ward (Build_event evt nullptr) w1 = Returns nullptr w1
  ∧ heap w1 = heap w ∧ pyrefs w1 = pyrefs w.
Proof.
  intros st w1. subst st w1. split.
  - unfold nanny_event_ctor. rewrite decide_True by done.
    erewrite bind_returns by reflexivity.
    rewrite event_ctor_result. destruct retain; [|reflexivity].
    cbv zeta. destruct (_ =? _); [reflexivity|].
    unfold delete_. by rewrite decide_True.
  - split; [by unfold get_ward; rewrite decide_True|].
    by destruct retain.
Qed.

(** X3. When the retain fails while a nanny event with a non-null ward is
    being built, the constructor throws the driver's error and the payload
    that was just allocated is deleted again, so the heap is as before; but
    the reference that the payload's constructor took on the ward is not
    given back: the count stays one higher and [py::deref] is not called. *)
Theorem nanny_event_retain_failure_keeps_reference (d : driver) (init : bool)
    (evt : cl_event) (ward : voidp) (w : world) :
  ward ≠ nullptr →
  (∀ tr, clRetainEvent d tr evt ≠ CL_SUCCESS) →
  ∃ e w',
    nanny_event_ctor d init evt true ward w = Throws e w'
    ∧ routine e = "clRetainEvent"
    ∧ code e ≠ CL_SUCCESS
    ∧ heap w' = heap w
    ∧ refcount ward w' = refcount ward w + 1
    ∧ occ (PyDeref ward) (trace w') = occ (PyDeref ward) (trace w)
    ∧ finish_runs (fresh ({[nullptr]} ∪ dom (heap w))) w'
      = finish_runs (fresh ({[nullptr]} ∪ dom (heap w))) w.
Proof.
  intros Hward Hfail.
  destruct (nanny_event_private_ctor_result init ward w)
    as (p & w1 & Hctor & Hp & Hfresh & Hheap & Hrefs & Htr & _).
  assert (p = fresh ({[nullptr]} ∪ dom (heap w))) as Hpeq.
  { unfold nanny_event_private_ctor in Hctor.
    erewrite bind_returns in Hctor by reflexivity.
    erewrite bind_returns in Hctor by reflexivity.
    erewrite bind_returns in Hctor
      by (unfold load; simpl; rewrite lookup_insert_eq; reflexivity).
    by injection Hctor as <- _. }
  rewrite <- Hpeq.
  unfold nanny_event_ctor. rewrite decide_False by done.
  erewrite bind_returns by exact Hctor.
  rewrite event_ctor_result. cbv zeta.
  pose proof (Hfail (trace w1)) as Hst. apply Z.eqb_neq in Hst as Hst'.
  rewrite Hst'.
  erewrite delete_live;
    [|exact Hp | simpl; rewrite Hheap; apply lookup_insert_eq].
  eexists _, _. split; [reflexivity|]. simpl.
  split; [done|]. split; [done|].
  split; [rewrite Hheap, delete_insert_eq; by apply delete_id|].
  split; [unfold refcount; simpl; by rewrite Hrefs, lookup_insert_eq|].
  unfold finish_runs. simpl. rewrite Htr. split; occ_count.
Qed.

Lemma nanny_event_retain_failure_keeps_reference_witness :
  ∃ e w',
    nanny_event_ctor dead_driver false 5 true 7 one_ward = Throws e w'
    ∧ code e ≠ CL_SUCCESS
    ∧ heap w' = heap one_ward
    ∧ refcount 7 w' = 2.
Proof.
  destruct (nanny_event_retain_failure_keeps_reference dead_driver false 5 7
              one_ward) as (e & w' & Hc & _ & Hcode & Hheap & Hrc & _);
    [done | done |].
  exists e, w'. split; [exact Hc|]. split; [exact Hcode|].
  split; [exact Hheap | exact Hrc].
Defined.

(** ** Waiting on one event *)

Lemma call_finish_result (w : world) (p : Z) (o : payload) :
  heap w !! p = Some o →
  call_finish p w
  = Returns tt
      (if m_finished o then w
       else with_trace (λ tr, tr ++ [Finish p])
              (with_heap (insert p (set_finished true o)) w)).
Proof.
  intros H. destruct (m_finished o) eqn:Hf.
  - by apply call_finish_finished with o.
  - by apply call_finish_unfinished.
Qed.

Lemma wait_result (d : driver) (this : event) (w : world) :
  wait d this w
  = let w1 := with_trace (λ tr, tr ++ [ClWaitForEvents [data this]]) w in
    let st := clWaitForEvents d (trace w) [data this] in
    if st =? CL_SUCCESS then
      if decide (m_p this = nullptr) then Returns tt w1
      else call_finish (m_p this) w1
    else Throws (clerror2 "clWaitForEvents" st) w1.
Proof.
  unfold wait, pyopencl_call_guarded. munfold. simpl.
  destruct (_ =? _); [|done]. by destruct (decide _).
Qed.





(** ** Destruction *)

Lemma event_dtor_after_release (d : driver) (PYOPENCL_CL_VERSION : Z)
    (support_cb : bool) (this : event) (w w1 : world) :
  release_private d PYOPENCL_CL_VERSION support_cb this w = Returns tt w1 →
  event_dtor d PYOPENCL_CL_VERSION support_cb this w
  = Returns tt (with_trace (λ tr, tr ++ [ClReleaseEvent (data this)]) w1).
Proof. intros H. unfold event_dtor. by erewrite bind_returns by exact H. Qed.

Lemma event_dtor_null_payload_eq (d : driver) (PYOPENCL_CL_VERSION : Z)
    (support_cb : bool) (this : event) (w : world) :
  m_p this = nullptr →
  event_dtor d PYOPENCL_CL_VERSION support_cb this w
  = Returns tt (with_trace (λ tr, tr ++ [ClReleaseEvent (data this)]) w).
Proof.
  intros H. apply event_dtor_after_release. by apply release_private_null.
Qed.

(** X6. After a successful [wait] the destructor takes the synchronous
    path, whatever the OpenCL version and the callback switch: the payload
    is deleted on the spot, the native handle is released, and no callback
    is registered, no thread is detached and nothing is printed.  Over the
    two calls [finish] has run once, unless it had run before. *)
Theorem wait_then_destroy (d : driver) (PYOPENCL_CL_VERSION : Z)
    (support_cb : bool) (this : event) (w : world) (o : payload) :
  m_p this ≠ nullptr →
  heap w !! m_p this = Some o →
  (∀ tr, clWaitForEvents d tr [data this] = CL_SUCCESS) →
  ∃ w1 w2,
    wait d this w = Returns tt w1
    ∧ event_dtor d PYOPENCL_CL_VERSION support_cb this w1 = Returns tt w2
    ∧ trace w2
      = trace w1 ++ [Delete (m_p this); ClReleaseEvent (data this)]
    ∧ heap w2 = delete (m_p this) (heap w)
    ∧ callbacks w2 = callbacks w ∧ threads w2 = threads w
    ∧ cerr w2 = cerr w ∧ pyrefs w2 = pyrefs w
    ∧ finish_runs (m_p this) w2
      = (finish_runs (m_p this) w + if m_finished o then 0 else 1)%nat.
Proof.
  intros Hp H Hok.
  rewrite wait_result. cbv zeta. rewrite Hok. simpl.
  rewrite decide_False by done.
  erewrite call_finish_result by (simpl; exact H).
  eexists _, _. split; [reflexivity|].
  set (w1 := if m_finished o then _ else _).
  assert (heap w1 = <[m_p this := set_finished true o]> (heap w)) as Hheap.
  { subst w1. destruct (m_finished o) eqn:Hf; simpl; [|done].
    rewrite set_finished_same by done. symmetry. by apply insert_id. }
  assert (heap w1 !! m_p this = Some (set_finished true o)) as H1
    by (rewrite Hheap; apply lookup_insert_eq).
  split.
  { apply event_dtor_after_release.
    apply release_private_finished with (set_finished true o);
      [done | done | apply m_finished_set]. }
  clear Hheap H1. unfold finish_runs. subst w1.
  destruct (m_finished o); simpl.
  - split; [by rewrite <- app_assoc|]. repeat split. occ_count.
  - split; [by rewrite <- app_assoc|].
    split; [by rewrite delete_insert_eq|]. repeat split. occ_count.
Qed.

Lemma wait_then_destroy_witness :
  ∃ w1 w2,
    wait ok_driver handle_5 one_payload = Returns tt w1
    ∧ event_dtor ok_driver 0x1010 true handle_5 w1 = Returns tt w2
    ∧ heap w2 = delete 1 (heap one_payload)
    ∧ callbacks w2 = [] ∧ threads w2 = [].
Proof.
  destruct (wait_then_destroy ok_driver 0x1010 true handle_5 one_payload
              (event_private false))
    as (w1 & w2 & H1 & H2 & _ & Hh & Hc & Ht & _);
    [done | reflexivity | done |].
  exists w1, w2. split; [exact H1|]. split; [exact H2|].
  split; [exact Hh|]. split; [exact Hc | exact Ht].
Defined.

(** The shape of every run of the destructor. *)
Lemma event_dtor_shape (d : driver) (PYOPENCL_CL_VERSION : Z)
    (support_cb : bool) (this : event) (w : world) :
  m_p this = nullptr ∨ is_Some (heap w !! m_p this) →
  ∃ w' tr,
    event_dtor d PYOPENCL_CL_VERSION support_cb this w = Returns tt w'
    ∧ trace w' = trace w ++ tr ++ [ClReleaseEvent (data this)]
    ∧ (tr = []
       ∨ tr = [Delete (m_p this)]
       ∨ tr = [ClSetEventCallback (data this) CL_COMPLETE]
       ∨ tr = [Spawn (data this) (m_p this)])
    ∧ pyrefs w' = pyrefs w
    ∧ outs w' = outs w
    ∧ ∀ q, q ≠ m_p this → heap w' !! q = heap w !! q.
Proof.
  intros [Hnull | [o H]].
  - rewrite event_dtor_null_payload_eq by done.
    eexists _, []. split; [reflexivity|]. simpl. eauto 10.
  - destruct (decide (m_p this = nullptr)) as [Hnull|Hp].
    { rewrite event_dtor_null_payload_eq by done.
      eexists _, []. split; [reflexivity|]. simpl. eauto 10. }
    destruct (m_finished o) eqn:Hf.
    + erewrite event_dtor_after_release
        by (by apply release_private_finished with o).
      eexists _, [Delete (m_p this)]. split; [reflexivity|]. simpl.
      split; [by rewrite <- app_assoc|]. split; [eauto|].
      split; [done|]. split; [done|].
      intros q Hq. by apply lookup_delete_ne.
    + pose proof (release_private_unfinished d PYOPENCL_CL_VERSION support_cb
                    this w o Hp H Hf) as Hr.
      destruct (use_callback _ _).
      * cbv zeta in Hr. destruct (_ =? _);
          (erewrite event_dtor_after_release by exact Hr;
           eexists _, [ClSetEventCallback (data this) CL_COMPLETE];
           split; [reflexivity|]; simpl;
           split; [by rewrite <- app_assoc|]; eauto 10).
      * erewrite event_dtor_after_release by exact Hr.
        eexists _, [Spawn (data this) (m_p this)].
        split; [reflexivity|]. simpl.
        split; [by rewrite <- app_assoc|]. eauto 10.
Qed.

(** X7. The destructor of a handle whose payload pointer is null or points
    to a live payload always returns normally, for every driver, version
    and callback switch: nothing is thrown, also when the driver refuses
    every call.  Before the single, final [clReleaseEvent] on its handle it
    does at most one thing: delete the payload, register the completion
    callback, or detach the monitor thread.  It never waits for the event
    and never runs [finish] itself, and it touches no external reference. *)
Theorem event_dtor_never_blocks (d : driver) (PYOPENCL_CL_VERSION : Z)
    (support_cb : bool) (this : event) (w : world) :
  m_p this = nullptr ∨ is_Some (heap w !! m_p this) →
  ∃ w' tr,
    event_dtor d PYOPENCL_CL_VERSION support_cb this w = Returns tt w'
    ∧ trace w' = trace w ++ tr ++ [ClReleaseEvent (data this)]
    ∧ (tr = []
       ∨ tr = [Delete (m_p this)]
       ∨ tr = [ClSetEventCallback (data this) CL_COMPLETE]
       ∨ tr = [Spawn (data this) (m_p this)])
    ∧ pyrefs w' = pyrefs w
    ∧ outs w' = outs w
    ∧ ∀ q, q ≠ m_p this → heap w' !! q = heap w !! q.
Proof. apply event_dtor_shape. Qed.

Lemma event_dtor_never_blocks_witness :
  ∃ w' tr,
    event_dtor dead_driver 0x1010 true handle_5 one_payload = Returns tt w'
    ∧ trace w' = trace one_payload ++ tr ++ [ClReleaseEvent 5]
    ∧ pyrefs w' = pyrefs one_payload.
Proof.
  destruct (event_dtor_never_blocks dead_driver 0x1010 true handle_5
              one_payload) as (w' & tr & Hd & Htr & _ & Hrefs & _).
  { right. by eexists. }
  exists w', tr. split; [exact Hd|]. split; [exact Htr | exact Hrefs].
Defined.

(** X15. A handle built by [event::event] and later destroyed has released
    its native handle exactly once, and has retained it once or not at all,
    as the [retain] flag said: with [retain] the two balance, without it the
    handle gives up the reference it was handed. *)
Theorem retain_release_balance (d : driver) (PYOPENCL_CL_VERSION : Z)
    (support_cb : bool) (evt : cl_event) (retain : bool) (p : Z) (w : world) :
  p = nullptr ∨ is_Some (heap w !! p) →
  (retain = true → ∀ tr, clRetainEvent d tr evt = CL_SUCCESS) →
  ∃ e w1 w2,
    event_ctor d evt retain p w = Returns e w1
    ∧ event_dtor d PYOPENCL_CL_VERSION support_cb e w1 = Returns tt w2
    ∧ occ (ClRetainEvent evt) (trace w2)
      = (occ (ClRetainEvent evt) (trace w) + if retain then 1 else 0)%nat
    ∧ occ (ClReleaseEvent evt) (trace w2)
      = S (occ (ClReleaseEvent evt) (trace w)).
Proof.
  intros Hlive Hretain. rewrite event_ctor_result.
  set (w1 := if retain then with_trace (λ tr, tr ++ [ClRetainEvent evt]) w
             else w).
  assert (event_ctor_ok :
            (if retain
             then let w1 := with_trace (λ tr, tr ++ [ClRetainEvent evt]) w in
                  let st := clRetainEvent d (trace w) evt in
                  if st =? CL_SUCCESS then Returns (Build_event evt p) w1
                  else match delete_ p w1 with
                       | Returns _ w2 => Throws (clerror2 "clRetainEvent" st) w2
                       | Throws e w2 => Throws e w2
                       | Undefined => Undefined
                       end
             else Returns (Build_event evt p) w)
            = Returns (Build_event evt p) w1).
  { subst w1. destruct retain; [|done]. cbv zeta.
    by rewrite (Hretain eq_refl). }
  rewrite event_ctor_ok. clear event_ctor_ok.
  destruct (event_dtor_shape d PYOPENCL_CL_VERSION support_cb
              (Build_event evt p) w1)
    as (w2 & tr & Hd & Htr & Hshape & _).
  { subst w1. by destruct retain. }
  exists (Build_event evt p), w1, w2. split; [done|]. split; [exact Hd|].
  rewrite Htr. simpl in *.
  assert (trace w1 = trace w ++ if retain then [ClRetainEvent evt] else [])
    as -> by (subst w1; destruct retain; simpl; by rewrite ?app_nil_r).
  destruct Hshape as [-> | [-> | [-> | ->]]]; destruct retain; split; occ_count.
Qed.

Lemma retain_release_balance_witness :
  ∃ e w1 w2,
    event_ctor ok_driver 5 true 1 one_payload = Returns e w1
    ∧ event_dtor ok_driver 0x1010 true e w1 = Returns tt w2
    ∧ occ (ClRetainEvent 5) (trace w2) = 1%nat
    ∧ occ (ClReleaseEvent 5) (trace w2) = 1%nat.
Proof.
  destruct (retain_release_balance ok_driver 0x1010 true 5 true 1 one_payload)
    as (e & w1 & w2 & Hc & Hd & Hret & Hrel).
  { right. by eexists. }
  { done. }
  exists e, w1, w2. split; [exact Hc|]. split; [exact Hd|].
  split; [exact Hret | exact Hrel].
Defined.

(** ** Waiting for several events, and queries *)

Lemma enqueue_wait_for_events_result (d : driver) (queue : Z)
    (wait_for : list event) (w : world) :
  enqueue_wait_for_events d queue wait_for w
  = let st := clEnqueueWaitForEvents d (trace w) queue (data <$> wait_for) in
    Returns (if st =? CL_SUCCESS then None
             else Some (clerror2 "clEnqueueWaitForEvents" st))
      (with_trace
         (λ tr, tr ++ [ClEnqueueWaitForEvents queue (data <$> wait_for)]) w).
Proof.
  unfold enqueue_wait_for_events, c_handle_error, pyopencl_call_guarded.
  munfold. simpl. by destruct (_ =? _).
Qed.

(** X8. [wait_for_events] and [enqueue_wait_for_events] never finalize: for
    any handles, whatever the driver answers, they return (possibly with
    the driver's error) and leave every payload, reference count, callback
    and thread as it was.  So after [wait_for_events] on a handle with an
    unfinished payload the payload is still unfinished, unlike after [wait]
    on that handle, and destroying the handle does not delete the payload
    on the spot but leaves its finalize to the callback or the monitor
    thread. *)
Theorem bulk_waits_never_finalize (d : driver) (PYOPENCL_CL_VERSION : Z)
    (support_cb : bool) (queue : Z) (wait_for : list event) (this : event)
    (w : world) (o : payload) :
  m_p this ≠ nullptr →
  heap w !! m_p this = Some o →
  m_finished o = false →
  ∃ r1 w1 r2 w2,
    wait_for_events d wait_for w = Returns r1 w1
    ∧ enqueue_wait_for_events d queue wait_for w = Returns r2 w2
    ∧ heap w1 = heap w ∧ pyrefs w1 = pyrefs w
    ∧ callbacks w1 = callbacks w ∧ threads w1 = threads w
    ∧ heap w2 = heap w ∧ pyrefs w2 = pyrefs w
    ∧ callbacks w2 = callbacks w ∧ threads w2 = threads w
    ∧ is_finished (m_p this) w1 = Returns false w1
    ∧ finish_runs (m_p this) w1 = finish_runs (m_p this) w
    ∧ ∃ w3,
        event_dtor d PYOPENCL_CL_VERSION support_cb this w1 = Returns tt w3
        ∧ heap w3 !! m_p this = Some o
        ∧ deletions (m_p this) w3 = deletions (m_p this) w
        ∧ finish_runs (m_p this) w3 = finish_runs (m_p this) w.
Proof.
  intros Hp H Hf.
  rewrite wait_for_events_result, enqueue_wait_for_events_result. cbv zeta.
  eexists _, _, _, _. split; [reflexivity|]. split; [reflexivity|].
  set (w1 := with_trace _ w).
  assert (heap w1 !! m_p this = Some o) as H1 by done.
  do 8 (split; [done|]).
  split; [by rewrite (is_finished_live _ _ _ H1), Hf|].
  split; [unfold finish_runs; subst w1; simpl; occ_count|].
  pose proof (release_private_unfinished d PYOPENCL_CL_VERSION support_cb
                this w1 o Hp H1 Hf) as Hr.
  unfold deletions, finish_runs.
  destruct (use_callback _ _).
  - cbv zeta in Hr. destruct (_ =? _);
      (erewrite event_dtor_after_release by exact Hr;
       eexists; split; [reflexivity|]; subst w1; simpl;
       split; [done|]; split; occ_count).
  - erewrite event_dtor_after_release by exact Hr.
    eexists. split; [reflexivity|]. subst w1. simpl.
    split; [done|]. split; occ_count.
Qed.

Lemma bulk_waits_never_finalize_witness :
  ∃ r1 w1 w3,
    wait_for_events ok_driver [handle_5] one_payload = Returns r1 w1
    ∧ is_finished 1 w1 = Returns false w1
    ∧ event_dtor ok_driver 0x1010 true handle_5 w1 = Returns tt w3
    ∧ heap w3 !! 1 = Some (event_private false).
Proof.
  destruct (bulk_waits_never_finalize ok_driver 0x1010 true 0 [handle_5]
              handle_5 one_payload (event_private false))
    as (r1 & w1 & _ & _ & H1 & _ & _ & _ & _ & _ & _ & _ & _ & _ & Hfin & _
        & w3 & Hd & Hh & _);
    [done | reflexivity | reflexivity |].
  exists r1, w1, w3. split; [exact H1|]. split; [exact Hfin|].
  split; [exact Hd | exact Hh].
Defined.

(** X9. For one of the four timestamp fields [event__get_profiling_info]
    asks the driver once, for that field of that handle.  When the driver
    answers with success, the value is stored in [*out] as a 64-bit integer
    and the null error is returned; when the driver fails, the error with
    the driver's status is returned and [*out] is not written.  No payload
    is touched either way. *)
Theorem event__get_profiling_info_result (d : driver) (this : event)
    (param : cl_uint) (out : Z) (w : world) :
  param ∈ profiling_fields →
  let r := clGetEventProfilingInfo d (trace w) (data this) param in
  ∃ w',
    event__get_profiling_info d this param out w
    = Returns (if r.1 =? CL_SUCCESS then None
               else Some (clerror2 "clGetEventProfilingInfo" r.1)) w'
    ∧ outs w'
      = (if r.1 =? CL_SUCCESS
         then <[out := int_info type_cl_ulong r.2]> (outs w)
         else outs w)
    ∧ trace w' = trace w ++ [ClGetEventProfilingInfo (data this) param]
    ∧ heap w' = heap w.
Proof.
  intros Hin r. subst r.
  assert (get_profiling_info d this param
          = pyopencl_get_int_info d type_cl_ulong true this param) as Hgp.
  { unfold get_profiling_info, profiling_fields in *.
    repeat (apply elem_of_cons in Hin as [->|Hin]; [reflexivity|]).
    by apply elem_of_nil in Hin. }
  unfold event__get_profiling_info. rewrite Hgp.
  unfold c_handle_error, pyopencl_get_int_info. munfold. simpl.
  destruct (_ =? _); eexists; (split; [reflexivity|]); done.
Qed.

Lemma event__get_profiling_info_result_witness :
  ∃ w',
    event__get_profiling_info ok_driver handle_5 CL_PROFILING_COMMAND_END 9
      one_payload
    = Returns None w'
    ∧ outs w' !! 9 = Some (int_info type_cl_ulong 0).
Proof.
  destruct (event__get_profiling_info_result ok_driver handle_5
              CL_PROFILING_COMMAND_END 9 one_payload)
    as (w' & Hr & Ho & _); [compute_done|].
  exists w'. split; [exact Hr|]. rewrite Ho. reflexivity.
Defined.

(** X10. For a field that [get_info] knows, it asks the driver once, for
    that field of that handle, and hands back the driver's value unchanged,
    wrapped as the kind of the field; a failure of the driver is thrown with
    the driver's status.  The one exception is the context field when the
    wrapper is compiled for an OpenCL version before 1.1: it is rejected
    with [CL_INVALID_VALUE] like an unknown field, without a driver call. *)
Theorem get_info_queries_driver (d : driver) (PYOPENCL_CL_VERSION : Z)
    (this : event) (param : cl_uint) (w : world) :
  param ∈ event_info_fields →
  let r := clGetEventInfo d (trace w) (data this) param in
  let w1 := with_trace (λ tr, tr ++ [ClGetEventInfo (data this) param]) w in
  if (param =? CL_EVENT_CONTEXT) && negb (0x1010 <=? PYOPENCL_CL_VERSION) then
    get_info d PYOPENCL_CL_VERSION this param w
    = Throws (clerror2 "Event.get_info" CL_INVALID_VALUE) w
  else if r.1 =? CL_SUCCESS then
    ∃ v, get_info d PYOPENCL_CL_VERSION this param w = Returns v w1
         ∧ info_field_of PYOPENCL_CL_VERSION v = Some param
         ∧ info_value v = r.2
  else
    get_info d PYOPENCL_CL_VERSION this param w
    = Throws (clerror2 "clGetEventInfo" r.1) w1.
Proof.
  intros Hin r w1. subst r w1. unfold event_info_fields in Hin.
  unfold get_info, pyopencl_get_opaque_info, pyopencl_get_int_info.
  munfold.
  repeat (apply elem_of_cons in Hin as [->|Hin];
          [simpl; destruct (_ =? _); by eauto|]).
  apply elem_of_cons in Hin as [->|Hin]; [|by apply elem_of_nil in Hin].
  simpl. destruct (0x1010 <=? PYOPENCL_CL_VERSION) eqn:Hv; simpl; [|done].
  destruct (_ =? _); [|done]. eexists. split; [reflexivity|].
  simpl. by rewrite Hv.
Qed.

Lemma get_info_queries_driver_witness :
  get_info ok_driver 0x1000 handle_5 CL_EVENT_CONTEXT one_payload
  = Throws (clerror2 "Event.get_info" CL_INVALID_VALUE) one_payload.
Proof.
  apply (get_info_queries_driver ok_driver 0x1000 handle_5 CL_EVENT_CONTEXT
           one_payload).
  compute_done.
Defined.

(** ** More on threads racing through [wait] *)

Lemma thread_step_rank (d : driver) (this : event) (c c' : pc) (w w' : world) :
  thread_step d this c w = Returns c' w' →
  (rank c' ≤ pred (rank c))%nat.
Proof.
  destruct c; simpl.
  - unfold pyopencl_call_guarded. munfold. simpl.
    destruct (_ =? _); [destruct (decide _)|]; intros [= <- _]; simpl; lia.
  - unfold exchange. munfold. destruct (heap w !! m_p this); [|done].
    destruct (m_finished _); intros [= <- _]; simpl; lia.
  - unfold finish. munfold. destruct (heap w !! m_p this) as [o|]; [|done].
    destruct o; intros [= <- _]; simpl; lia.
  - munfold. intros [= <- _]. simpl. lia.
  - munfold. intros [= <- _]. simpl. lia.
Qed.

Lemma sched_step_length (d : driver) (this : event) (i : nat) (cfg cfg' : config) :
  sched_step d this i cfg = Some cfg' → length cfg'.1 = length cfg.1.
Proof.
  unfold sched_step. destruct (cfg.1 !! i); [|done].
  destruct (thread_step _ _ _ _); try done. intros [= <-]. simpl.
  apply length_insert.
Qed.

(** A step of thread [j] lowers the rank of thread [j] and leaves the
    program points of the other threads alone. *)
Lemma sched_step_rank (d : driver) (this : event) (i j : nat) (c : pc)
    (cfg cfg' : config) :
  sched_step d this j cfg = Some cfg' →
  cfg.1 !! i = Some c →
  ∃ c', cfg'.1 !! i = Some c'
        ∧ (rank c' ≤ if decide (i = j) then pred (rank c) else rank c)%nat.
Proof.
  unfold sched_step. intros Hstep Hi.
  destruct (cfg.1 !! j) as [cj|] eqn:Hj; [|done].
  destruct (thread_step d this cj cfg.2) as [cj' w'| |] eqn:Hts; try done.
  injection Hstep as <-. simpl.
  destruct (decide (i = j)) as [->|Hne].
  - rewrite list_lookup_insert_eq by (by eapply lookup_lt_Some).
    eexists. split; [done|]. simplify_eq. by eapply thread_step_rank.
  - rewrite list_lookup_insert_ne by done. eauto.
Qed.

Lemma run_schedule_rank (d : driver) (this : event) (s : list nat) (i : nat)
    (c : pc) (cfg cfg' : config) :
  run_schedule d this s cfg = Some cfg' →
  cfg.1 !! i = Some c →
  ∃ c', cfg'.1 !! i = Some c' ∧ (rank c' ≤ rank c - steps_of i s)%nat.
Proof.
  revert c cfg. induction s as [|j s IH]; intros c cfg; simpl.
  - intros [= <-] Hi. exists c. split; [done|]. unfold steps_of. simpl. lia.
  - destruct (sched_step d this j cfg) as [cfg1|] eqn:Hstep; [|done].
    intros Hrun Hi.
    destruct (sched_step_rank _ _ _ _ _ _ _ Hstep Hi) as (c1 & Hi1 & Hr1).
    destruct (IH _ _ Hrun Hi1) as (c' & Hi' & Hr').
    exists c'. split; [done|].
    unfold steps_of in *. rewrite filter_cons.
    destruct (decide (i = j)) as [->|Hne]; simpl; lia.
Qed.

Lemma run_schedule_total (d : driver) (this : event) (r0 : nat) (s : list nat)
    (cfg : config) :
  m_p this ≠ nullptr →
  guard_inv (m_p this) r0 cfg →
  Forall (λ j, j < length cfg.1)%nat s →
  ∃ cfg', run_schedule d this s cfg = Some cfg'
          ∧ length cfg'.1 = length cfg.1.
Proof.
  intros Hp. revert cfg. induction s as [|j s IH]; intros cfg Hinv Hs; simpl.
  - by eexists.
  - apply Forall_cons in Hs as [Hj Hs].
    destruct (sched_step_progress d this r0 j cfg Hp Hinv Hj) as [cfg1 Hstep].
    rewrite Hstep.
    pose proof (sched_step_length _ _ _ _ _ Hstep) as Hlen.
    destruct (IH cfg1) as (cfg' & Hrun & Hlen').
    + by eapply sched_step_inv.
    + by rewrite Hlen.
    + exists cfg'. split; [done|]. by rewrite Hlen', Hlen.
Qed.

(** X11. No thread in [wait] is ever held up by another one.  When [n]
    threads call [wait] on a handle with a live, unfinished payload, every
    schedule of their steps can be run to its end (no step is undefined),
    and a thread that has been given three steps has left [wait], by
    returning or by throwing, whatever the other threads did meanwhile. *)
Theorem racing_wait_never_stalls (d : driver) (this : event) (w0 : world)
    (o0 : payload) (n : nat) (s : list nat) (i : nat) :
  m_p this ≠ nullptr →
  heap w0 !! m_p this = Some o0 →
  m_finished o0 = false →
  Forall (λ j, j < n)%nat s →
  (i < n)%nat →
  (3 ≤ steps_of i s)%nat →
  ∃ pcs w,
    run_schedule d this s (replicate n at_wait, w0) = Some (pcs, w)
    ∧ length pcs = n
    ∧ (pcs !! i = Some returned ∨ ∃ e, pcs !! i = Some (thrown e)).
Proof.
  intros Hp H Hf Hs Hi Hsteps.
  destruct (run_schedule_total d this (finish_runs (m_p this) w0) s
              (replicate n at_wait, w0)) as ([pcs w] & Hrun & Hlen).
  { done. }
  { by apply guard_inv_initial with o0. }
  { simpl. by rewrite length_replicate. }
  simpl in Hlen. rewrite length_replicate in Hlen.
  exists pcs, w. split; [done|]. split; [done|].
  destruct (run_schedule_rank _ _ _ i at_wait _ _ Hrun) as (c' & Hi' & Hr).
  { simpl. by apply lookup_replicate_2. }
  simpl in Hi', Hr. rewrite Hi'.
  destruct c'; simpl in Hr; try lia; eauto.
Qed.

Lemma racing_wait_never_stalls_witness :
  ∃ pcs w,
    run_schedule ok_driver handle_5 [1; 0; 1; 0; 1]%nat
      (replicate 2 at_wait, one_payload) = Some (pcs, w)
    ∧ length pcs = 2%nat
    ∧ (pcs !! 1%nat = Some returned ∨ ∃ e, pcs !! 1%nat = Some (thrown e)).
Proof.
  apply (racing_wait_never_stalls ok_driver handle_5 one_payload
           (event_private false) 2 [1; 0; 1; 0; 1]%nat 1);
    [done | reflexivity | reflexivity | | lia | vm_compute; lia].
  repeat constructor.
Defined.

(** X12. However the steps of the threads in [wait] on a handle with a live
    payload interleave, [finish] runs at most once.  On a payload that was
    unfinished at the start it has run exactly once as soon as every thread
    has left [wait] and at least one of them has returned; on a payload
    whose flag was already set at the start it does not run at all. *)
Theorem racing_finish_runs_once (d : driver) (this : event) (w0 w : world)
    (o0 : payload) (n : nat) (s : list nat) (pcs : list pc) :
  m_p this ≠ nullptr →
  heap w0 !! m_p this = Some o0 →
  run_schedule d this s (replicate n at_wait, w0) = Some (pcs, w) →
  (finish_runs (m_p this) w0 ≤ finish_runs (m_p this) w
   ≤ finish_runs (m_p this) w0 + if m_finished o0 then 0 else 1)%nat
  ∧ (m_finished o0 = false →
     Forall (λ c, rank c = 0%nat) pcs →
     (∃ i, pcs !! i = Some returned) →
     finish_runs (m_p this) w = S (finish_runs (m_p this) w0))
  ∧ (m_finished o0 = true →
     finish_runs (m_p this) w = finish_runs (m_p this) w0).
Proof.
  intros Hp H Hrun.
  destruct (m_finished o0) eqn:Hf.
  - destruct (run_schedule_set_inv d this _ _ _ _ Hp
                (set_inv_initial _ _ n _ H Hf) Hrun)
      as (o & _ & _ & _ & Hruns).
    simpl in Hruns. split; [lia|]. split; [intros [=] | done].
  - destruct (run_schedule_inv d this Hp _ _ _ _
                (guard_inv_initial _ _ n _ H Hf) Hrun)
      as (o & _ & Hmono & Hcount & Hret).
    simpl in *. split; [destruct (m_finished o); lia|].
    split; [|intros [=]].
    intros _ Hleft [i Hi]. rewrite (Hret i Hi) in Hcount.
    assert (inside_finish pcs = 0%nat) as Hin.
    { unfold inside_finish. clear -Hleft.
      induction Hleft as [|c pcs Hc _ IH]; [done|].
      rewrite filter_cons. destruct (decide (at_finish = c)) as [<-|_]; done. }
    lia.
Qed.

Lemma racing_finish_runs_once_witness :
  ∃ w,
    run_schedule ok_driver handle_5 [1; 0; 1; 0; 1; 0]%nat
      (replicate 2 at_wait, one_payload) = Some ([returned; returned], w)
    ∧ finish_runs 1 w = 1%nat.
Proof.
  assert (∃ w, run_schedule ok_driver handle_5 [1; 0; 1; 0; 1; 0]%nat
                 (replicate 2 at_wait, one_payload)
               = Some ([returned; returned], w)) as [w Hrun]
    by (eexists; vm_compute; reflexivity).
  exists w. split; [exact Hrun|].
  destruct (racing_finish_runs_once ok_driver handle_5 one_payload w
              (event_private false) 2 _ _ ltac:(done) eq_refl Hrun)
    as (_ & Honce & _).
  apply Honce; [reflexivity | repeat constructor | by exists 0%nat].
Defined.

(** ** The life of a nanny event's reference *)

Lemma payload_get_ward_live (p : Z) (w : world) (f : bool) (ward : voidp) :
  heap w !! p = Some (nanny_event_private f ward) →
  payload_get_ward p w = Returns ward w.
Proof. intros H. unfold payload_get_ward, mbind, M_bind, load. by rewrite H. Qed.

Lemma get_ward_live (this : event) (w : world) (f : bool) (ward : voidp) :
  m_p this ≠ nullptr →
  heap w !! m_p this = Some (nanny_event_private f ward) →
  get_ward this w = Returns ward w.
Proof.
  intros Hp H. unfold get_ward. rewrite decide_False by done.
  by apply payload_get_ward_live with f.
Qed.

(** A handle with a live payload is destroyed in a state without pending
    deferred work, and then the deferred work completes: the whole never
    fails, and nothing in it calls into the foreign runtime. *)
Lemma drop_keeps_refs (d : driver) (PYOPENCL_CL_VERSION : Z) (support_cb : bool)
    (this : event) (w : world) (o : payload) :
  m_p this ≠ nullptr →
  heap w !! m_p this = Some o →
  callbacks w = [] → threads w = [] →
  ∃ w3 tr,
    (event_dtor d PYOPENCL_CL_VERSION support_cb this;; drain d) w
    = Returns tt w3
    ∧ pyrefs w3 = pyrefs w
    ∧ trace w3 = trace w ++ tr
    ∧ ∀ x, occ (PyDeref x) tr = 0%nat.
Proof.
  intros Hp H Hc Ht.
  destruct (m_finished o) eqn:Hf.
  - erewrite bind_returns; cycle 1.
    { apply event_dtor_after_release.
      by apply release_private_finished with o. }
    rewrite drain_quiescent by done.
    eexists _, [_; _]. split; [reflexivity|]. simpl.
    split; [done|]. split; [by rewrite <- app_assoc|].
    intros x. occ_count.
  - pose proof (release_private_unfinished d PYOPENCL_CL_VERSION support_cb
                  this w o Hp H Hf) as Hr.
    destruct (use_callback _ _).
    + cbv zeta in Hr. destruct (_ =? _).
      * erewrite bind_returns
          by (apply event_dtor_after_release; exact Hr).
        unfold drain. erewrite bind_returns; cycle 1.
        { unfold fire_callbacks. simpl. rewrite Hc. simpl.
          erewrite bind_returns; [reflexivity|]. simpl.
          eapply run_release_cb with (o := o) (status := CL_COMPLETE);
            [exact Hp | exact H | exact Hf]. }
        unfold join_threads. simpl. rewrite Ht. simpl.
        eexists _, [_; _; _; _]. split; [reflexivity|]. simpl.
        split; [done|]. split; [by rewrite <- !app_assoc|].
        intros x. occ_count.
      * erewrite bind_returns
          by (apply event_dtor_after_release; exact Hr).
        rewrite drain_quiescent by done.
        eexists _, [_; _]. split; [reflexivity|]. simpl.
        split; [done|]. split; [by rewrite <- !app_assoc|].
        intros x. occ_count.
    + erewrite bind_returns
        by (apply event_dtor_after_release; exact Hr).
      unfold drain. erewrite bind_returns; cycle 1.
      { unfold fire_callbacks. simpl. rewrite Hc. reflexivity. }
      unfold join_threads. simpl. rewrite Ht. simpl.
      erewrite bind_returns; cycle 1.
      { eapply run_monitor with (o := o) (d := d);
          [exact Hp | exact H | exact Hf]. }
      eexists _, [_; _; _; _; _]. split; [reflexivity|]. simpl.
      split; [done|]. split; [by rewrite <- !app_assoc|].
      intros x. occ_count.
Qed.

(** X13. The reference that a nanny event takes on its ward is not given
    back by anything the handle does afterwards.  For every driver, version
    and callback switch, and whatever value the completion flag starts
    with: after a [wait] that returns, the ward's count is still one above
    what it was before the construction and [get_ward] still returns the
    ward; and when the handle is destroyed and all deferred work has
    completed, the count is still one above and [py::deref] has not been
    called. *)
Theorem ward_reference_is_never_released (d : driver)
    (PYOPENCL_CL_VERSION : Z) (support_cb : bool) (init : bool)
    (evt : cl_event) (ward : voidp) (w : world) :
  ward ≠ nullptr →
  callbacks w = [] →
  threads w = [] →
  ∃ e w1,
    nanny_event_ctor d init evt false ward w = Returns e w1
    ∧ (∀ w2, wait d e w1 = Returns tt w2 →
             refcount ward w2 = refcount ward w + 1
             ∧ get_ward e w2 = Returns ward w2)
    ∧ ∃ w3,
        (event_dtor d PYOPENCL_CL_VERSION support_cb e;; drain d) w1
        = Returns tt w3
        ∧ refcount ward w3 = refcount ward w + 1
        ∧ occ (PyDeref ward) (trace w3) = occ (PyDeref ward) (trace w).
Proof.
  intros Hward Hc Ht.
  destruct (nanny_event_private_ctor_result init ward w)
    as (p & w1 & Hctor & Hp & Hfresh & Hheap & Hrefs & Htr & Hc1 & Ht1 & _).
  assert (heap w1 !! p = Some (nanny_event_private init ward)) as H1
    by (rewrite Hheap; apply lookup_insert_eq).
  assert (refcount ward w1 = refcount ward w + 1) as Hrc
    by (unfold refcount; by rewrite Hrefs, lookup_insert_eq).
  exists (Build_event evt p), w1. split.
  { unfold nanny_event_ctor. rewrite decide_False by done.
    erewrite bind_returns by exact Hctor. by rewrite event_ctor_result. }
  split.
  - intros w2. rewrite wait_result. cbv zeta. simpl.
    destruct (_ =? _); [|done]. rewrite decide_False by done.
    erewrite call_finish_result by (simpl; exact H1).
    intros [= <-]. destruct init; simpl.
    + split; [exact Hrc|].
      by apply get_ward_live with true.
    + split; [exact Hrc|].
      apply get_ward_live with true; [done|]. simpl. apply lookup_insert_eq.
  - destruct (drop_keeps_refs d PYOPENCL_CL_VERSION support_cb
                (Build_event evt p) w1 (nanny_event_private init ward))
      as (w3 & tr & Hdrop & Hrefs3 & Htr3 & Hno); [done|done|congruence..|].
    exists w3. split; [exact Hdrop|].
    split; [unfold refcount in *; by rewrite Hrefs3|].
    rewrite Htr3, Htr, !occ_app, Hno. occ_count.
Qed.

Lemma ward_reference_is_never_released_witness :
  ∃ e w1 w3,
    nanny_event_ctor ok_driver false 5 false 7 one_ward = Returns e w1
    ∧ (event_dtor ok_driver 0x1010 true e;; drain ok_driver) w1 = Returns tt w3
    ∧ refcount 7 w3 = 2.
Proof.
  destruct (ward_reference_is_never_released ok_driver 0x1010 true false 5 7
              one_ward) as (e & w1 & Hc & _ & w3 & Hd & Hrc & _);
    [done | reflexivity | reflexivity |].
  exists e, w1, w3. split; [exact Hc|]. split; [exact Hd | exact Hrc].
Defined.

(** X14. [nanny_event_private::finished] undoes what the payload's
    constructor did to the ward: run on a payload that the constructor has
    just built, it clears the stored pointer, then calls [py::deref] once,
    which brings the ward's count back to what it was before the
    construction; [get_ward] on the payload then returns [nullptr], and the
    completion flag is as the constructor left it. *)
Theorem finished_undoes_constructor (init : bool) (ward : voidp) (w : world) :
  ∃ p w1 w2,
    nanny_event_private_ctor init ward w = Returns p w1
    ∧ payload_get_ward p w1 = Returns ward w1
    ∧ finished p w1 = Returns tt w2
    ∧ payload_get_ward p w2 = Returns nullptr w2
    ∧ heap w2 !! p = Some (nanny_event_private init nullptr)
    ∧ refcount ward w2 = refcount ward w
    ∧ trace w2 = trace w ++ [New p; PyRef ward; PyDeref ward].
Proof.
  destruct (nanny_event_private_ctor_result init ward w)
    as (p & w1 & Hctor & Hp & Hfresh & Hheap & Hrefs & Htr & _).
  assert (heap w1 !! p = Some (nanny_event_private init ward)) as H1
    by (rewrite Hheap; apply lookup_insert_eq).
  destruct (finished_clears_then_releases w1 p init ward H1)
    as (w2 & Hfin & H2 & Htr2 & Hrc2).
  exists p, w1, w2. split; [exact Hctor|].
  split; [by apply payload_get_ward_live with init|].
  split; [exact Hfin|].
  split; [by apply payload_get_ward_live with init|].
  split; [exact H2|].
  split.
  - assert (refcount ward w1 = refcount ward w + 1) as Hrc1
      by (unfold refcount; by rewrite Hrefs, lookup_insert_eq).
    rewrite Hrc2, Hrc1. lia.
  - by rewrite Htr2, Htr, <- app_assoc.
Qed.

(** ** The deferred finalize *)

(** X16. The deferred finalize is unconditional.  The lambda that
    [release_private] registers ignores the status the driver calls it with,
    and the monitor thread ignores how its wait for the handle ended: on a
    live payload each of them runs [finish] (unless the payload is finished
    already) and then deletes the payload, once, without touching any
    external reference. *)
Theorem deferred_finalize_is_unconditional (d : driver) (evt : cl_event)
    (p : Z) (o : payload) (status : cl_int) (w : world) :
  p ≠ nullptr →
  heap w !! p = Some o →
  ∃ w1 w2,
    run_closure (release_cb p) status w = Returns tt w1
    ∧ run_thread d (monitor evt p) w = Returns tt w2
    ∧ trace w1
      = trace w ++ (if m_finished o then [] else [Finish p]) ++ [Delete p]
    ∧ trace w2
      = trace w ++ [ClWaitForEvents [evt]]
        ++ (if m_finished o then [] else [Finish p]) ++ [Delete p]
    ∧ heap w1 = delete p (heap w) ∧ heap w2 = delete p (heap w)
    ∧ pyrefs w1 = pyrefs w ∧ pyrefs w2 = pyrefs w.
Proof.
  intros Hp H.
  destruct (m_finished o) eqn:Hf.
  - unfold run_closure, run_thread.
    erewrite bind_returns by (by apply call_finish_finished with o).
    erewrite delete_live by done.
    erewrite (bind_returns (pyopencl_call_guarded_cleanup _ _ _))
      by reflexivity.
    erewrite bind_returns
      by (apply call_finish_finished with o; [exact H | exact Hf]).
    erewrite delete_live; [|done|exact H].
    eexists _, _. split; [reflexivity|]. split; [reflexivity|]. simpl.
    by rewrite <- app_assoc.
  - rewrite (run_release_cb p o status w Hp H Hf).
    rewrite (run_monitor d evt p o w Hp H Hf).
    eexists _, _. split; [reflexivity|]. split; [reflexivity|]. simpl.
    done.
Qed.

Lemma deferred_finalize_is_unconditional_witness :
  ∃ w1 w2,
    run_closure (release_cb 1) (-5) one_payload = Returns tt w1
    ∧ run_thread dead_driver (monitor 5 1) one_payload = Returns tt w2
    ∧ trace w1 = [Finish 1; Delete 1]
    ∧ trace w2 = [ClWaitForEvents [5]; Finish 1; Delete 1].
Proof.
  destruct (deferred_finalize_is_unconditional dead_driver 5 1
              (event_private false) (-5) one_payload)
    as (w1 & w2 & H1 & H2 & Ht1 & Ht2 & _); [done | reflexivity |].
  exists w1, w2. split; [exact H1|]. split; [exact H2|].
  split; [exact Ht1 | exact Ht2].
Defined.
